(** * midi2wav: the offline renderer and the WAV encoder of [src/App.tsx]

    The development embeds the two functions of the application that carry
    its behaviour,

    - [processMidiWithSoundfont] (App.tsx, lines 69-136), which sizes an
      offline audio context from the MIDI duration, posts one [noteOn] and
      one [noteOff] message per note to an audio worklet node and renders;
    - [audioBufferToWav] (App.tsx, lines 138-177), which serialises the
      rendered buffer as a 16-bit PCM RIFF/WAVE file;

    together with the part of the platform they run on: ECMAScript Numbers
    (IEEE 754 binary64, taken from the Standard Library's [SpecFloat]),
    [Math.min], [Math.max], [Math.ceil], the [DataView] setters, and the
    render loop of an [OfflineAudioContext] holding one worklet node.
    Where the standards let a call fail for reasons of the implementation
    (memory, policy), a [Host] says whether it does. *)

From Stdlib Require Import ZArith Lia SpecFloat Ascii String.
From stdpp Require Import base list.

Open Scope Z_scope.

(** ** Exceptions and results

    A JavaScript call either returns a value or throws.  [JsError] is the
    [Error] the application itself constructs (line 71), [RangeError] the
    one a [DataView] setter raises for an offset outside the view and
    [new ArrayBuffer] for a block that cannot be created, and
    [DOMException] the platform's, tagged with its name. *)

Inductive exn : Type :=
| JsError (message : string)
| RangeError
| DOMException (name : string).

Inductive result (A : Type) : Type :=
| Ok (a : A)
| Throw (e : exn).

Arguments Ok {A} a.
Arguments Throw {A} e.

#[export] Instance result_ret : MRet result := fun A a => Ok a.

#[export] Instance result_bind : MBind result := fun A B k r =>
  match r with
  | Ok a => k a
  | Throw e => Throw e
  end.

(** The name ECMAScript and Web IDL give to an exception. *)
Definition exn_name (e : exn) : string :=
  match e with
  | JsError _ => "Error"
  | RangeError => "RangeError"
  | DOMException name => name
  end.

(** ** What the standards leave to the implementation

    Four calls of the application can fail for reasons the standards do
    not fix: the creation of the data block of [new ArrayBuffer] (line
    141, a [RangeError] when the block cannot be created), [await
    audioWorklet.addModule] (line 85), [new AudioWorkletNode] (line 97)
    and [await startRendering()] (line 131).  A host says which of them
    succeed: [createByteDataBlock size] for a block of [size] bytes, and
    for the three others the exception, if any; that of [startRendering]
    may depend on the channel count and the length in frames. *)
Record Host : Type := {
  createByteDataBlock : Z -> bool;
  addModule : option exn;
  newAudioWorkletNode : option exn;
  rendering : Z -> Z -> option exn
}.

(** A call that throws, or an awaited promise that is rejected, when the
    host says so. *)
Definition settle (failure : option exn) : result unit :=
  match failure with
  | Some e => Throw e
  | None => Ok tt
  end.

(** ** ECMAScript Numbers *)

Module Number.

(** A Number is an IEEE 754 binary64 value: precision 53, [emax] 1024. *)
Definition float : Type := spec_float.
Definition prec : Z := 53.
Definition emax : Z := 1024.

(** The Number denoted by an integer literal or held by an integer-valued
    attribute (rounded to nearest even; exact below 2^53). *)
Definition of_Z (n : Z) : float := binary_normalize prec emax n 0 false.

Definition mul (x y : float) : float := SFmul prec emax x y.
Definition add (x y : float) : float := SFadd prec emax x y.
Definition lt (x y : float) : bool := SFltb x y.

Definition is_nan (x : float) : bool :=
  match x with S754_nan => true | _ => false end.

(** [Math.min(...args)], ECMA-262 21.3.2.25: the result starts at +Infinity;
    a NaN argument makes the result NaN; -0 is below +0. *)
Definition min_step (lowest number : float) : float :=
  match number, lowest with
  | S754_zero true, S754_zero false => number
  | _, _ => if lt number lowest then number else lowest
  end.

Fixpoint Math_min_from (lowest : float) (coerced : list float) : float :=
  match coerced with
  | [] => lowest
  | number :: rest =>
      if is_nan number then S754_nan
      else Math_min_from (min_step lowest number) rest
  end.

Definition Math_min (args : list float) : float :=
  Math_min_from (S754_infinity false) args.

(** [Math.max(...args)], ECMA-262 21.3.2.24: the result starts at -Infinity;
    a NaN argument makes the result NaN; +0 is above -0. *)
Definition max_step (highest number : float) : float :=
  match number, highest with
  | S754_zero false, S754_zero true => number
  | _, _ => if lt highest number then number else highest
  end.

Fixpoint Math_max_from (highest : float) (coerced : list float) : float :=
  match coerced with
  | [] => highest
  | number :: rest =>
      if is_nan number then S754_nan
      else Math_max_from (max_step highest number) rest
  end.

Definition Math_max (args : list float) : float :=
  Math_max_from (S754_infinity true) args.

(** [Math.ceil(x)]: the smallest integral Number not below [x]; NaN, the
    zeros and the infinities are returned unchanged, and a result that
    would be zero from a negative [x] is -0. *)
Definition Math_ceil (x : float) : float :=
  match x with
  | S754_finite s m e =>
      if 0 <=? e then x
      else
        let q := Z.pos m / 2 ^ (- e) in
        if s then
          if q =? 0 then S754_zero true else binary_normalize prec emax (- q) 0 true
        else
          binary_normalize prec emax (if Z.pos m mod 2 ^ (- e) =? 0 then q else q + 1) 0 false
  | _ => x
  end.

(** The integer part of a Number, rounding toward zero; the conversions
    below map NaN, the zeros and the infinities to 0. *)
Definition truncate (x : float) : Z :=
  match x with
  | S754_finite s m e =>
      let a := if 0 <=? e then Z.pos m * 2 ^ e else Z.pos m / 2 ^ (- e) in
      if s then - a else a
  | _ => 0
  end.

(** ECMA-262 7.1.9 [ToInt16]: truncate, reduce modulo 2^16, and read the
    result as a two's-complement number. *)
Definition ToInt16 (x : float) : Z :=
  let int16bit := truncate x mod 2 ^ 16 in
  if 2 ^ 15 <=? int16bit then int16bit - 2 ^ 16 else int16bit.

(** ECMA-262 7.1.7 [ToUint32], which is also the Web IDL conversion to
    [unsigned long] (no [EnforceRange], no [Clamp]). *)
Definition ToUint32 (x : float) : Z := truncate x mod 2 ^ 32.

(** ECMA-262 7.1.9 and 7.1.11: [ToUint16] and [ToUint8]. *)
Definition ToUint16 (x : float) : Z := truncate x mod 2 ^ 16.
Definition ToUint8 (x : float) : Z := truncate x mod 2 ^ 8.

(** An element read from a [Float32Array] is a Number that a binary32
    holds exactly: a valid binary64 whose significand ends in at least
    53 - 24 = 29 zero bits.  (Every binary32 value satisfies this; the
    predicate does not bound the exponent to the binary32 range.) *)
Definition float32_representable (x : float) : bool :=
  match x with
  | S754_finite _ m _ => valid_binary prec emax x && (Z.pos m mod 2 ^ 29 =? 0)
  | _ => true
  end.

End Number.

Export Number.

(** ** Typed-array views: [ArrayBuffer] and [DataView]

    A view is the byte content of its buffer, one [Z] in [0, 256) per
    byte.  Offsets and lengths, which are integer-valued Numbers, are
    integers here: below 2^53 Number arithmetic on them is exact, and a
    length of 2^53 or more is refused.  The value handed to a setter is a
    Number, which the setter converts. *)

Module DataView.

Abbreviation bytes := (list Z).

(** Whether [new ArrayBuffer(length)] returns: [ToIndex] accepts a length
    from 0 to 2^53 - 1, and [CreateByteDataBlock] needs the host to create
    the block. *)
Definition allocates (host : Host) (length : Z) : bool :=
  (0 <=? length) && (length <=? 2 ^ 53 - 1) && createByteDataBlock host length.

(** [new ArrayBuffer(length)]: a zero-filled buffer, or a [RangeError]. *)
Definition ArrayBuffer_new (host : Host) (length : Z) : result bytes :=
  if allocates host length
  then Ok (replicate (Z.to_nat length) 0)
  else Throw RangeError.

(** The [n] low bytes of [v], least significant first ([v] taken modulo
    256^n, two's complement for a negative [v]). *)
Fixpoint le_bytes (n : nat) (v : Z) : list Z :=
  match n with
  | O => []
  | S n' => v mod 256 :: le_bytes n' (v / 256)
  end.

Definition raw_bytes (n : nat) (v : Z) (littleEndian : bool) : list Z :=
  if littleEndian then le_bytes n v else reverse (le_bytes n v).

(** [SetViewValue]: the offset must leave room for the whole element,
    else [RangeError]; then the raw bytes are stored. *)
Definition store (view : bytes) (byteOffset : Z) (raw : list Z) : result bytes :=
  if (0 <=? byteOffset) && (byteOffset + Z.of_nat (length raw) <=? Z.of_nat (length view))
  then Ok (list_inserts (Z.to_nat byteOffset) raw view)
  else Throw RangeError.

(** The setters convert the Number they receive: a value that is not
    integral is truncated, and the result is reduced modulo the width. *)
Definition setUint8 (view : bytes) (byteOffset : Z) (value : float) : result bytes :=
  store view byteOffset (raw_bytes 1 (ToUint8 value) true).

Definition setUint16 (view : bytes) (byteOffset : Z) (value : float) (littleEndian : bool)
  : result bytes :=
  store view byteOffset (raw_bytes 2 (ToUint16 value) littleEndian).

Definition setUint32 (view : bytes) (byteOffset : Z) (value : float) (littleEndian : bool)
  : result bytes :=
  store view byteOffset (raw_bytes 4 (ToUint32 value) littleEndian).

Definition setInt16 (view : bytes) (byteOffset : Z) (value : float) (littleEndian : bool) : result bytes :=
  store view byteOffset (raw_bytes 2 (ToInt16 value) littleEndian).

End DataView.

Export DataView.

(** ** [AudioBuffer] *)

Module AudioBuffer.

(** The attributes of an [AudioBuffer] and its channels' [Float32Array]s.
    [numberOfChannels] and [length] are [unsigned long]; [sampleRate] is a
    [float], which need not be integral. *)
Record t : Type := {
  numberOfChannels : Z;
  length : Z;
  sampleRate : float;
  channelData : list (list float)
}.

(** [getChannelData(channel)]: [IndexSizeError] outside the channels. *)
Definition getChannelData (buffer : t) (channel : Z) : result (list float) :=
  if channel <? 0 then Throw (DOMException "IndexSizeError")
  else match channelData buffer !! Z.to_nat channel with
       | Some data => Ok data
       | None => Throw (DOMException "IndexSizeError")
       end.

(** What the platform guarantees of every [AudioBuffer]: as many channels
    as [numberOfChannels] says, each of [length] frames, and both numbers
    within [unsigned long]. *)
Definition wf (buffer : t) : Prop :=
  numberOfChannels buffer = Z.of_nat (List.length (channelData buffer)) /\
  Forall (fun data => Z.of_nat (List.length data) = length buffer) (channelData buffer) /\
  0 <= length buffer < 2 ^ 32 /\ numberOfChannels buffer < 2 ^ 32.

(** Every sample is a binary32 value. *)
Definition float32_samples (buffer : t) : Prop :=
  Forall (Forall (fun x => float32_representable x = true)) (channelData buffer).

End AudioBuffer.

(** ** The WAV encoder: [audioBufferToWav], App.tsx lines 138-177 *)

Definition charCode (c : ascii) : Z := Z.of_N (N_of_ascii c).

(** Lines 145-149: [writeString(offset, string)], the loop from index [i]. *)
Fixpoint writeString_from (view : bytes) (offset i : Z) (string : String.string) : result bytes :=
  match string with
  | EmptyString => Ok view
  | String c rest =>
      view ← setUint8 view (offset + i) (of_Z (charCode c));
      writeString_from view offset (i + 1) rest
  end.

Definition writeString (view : bytes) (offset : Z) (string : String.string) : result bytes :=
  writeString_from view offset 0 string.

(** Line 171: [Math.max(-1, Math.min(1, channelData[j]))]. *)
Definition clamp_sample (x : float) : float :=
  Math_max [of_Z (-1); Math_min [of_Z 1; x]].

(** Line 172, the argument of [setInt16]:
    [sample < 0 ? sample * 0x8000 : sample * 0x7FFF]. *)
Definition scale_sample (sample : float) : float :=
  if lt sample (of_Z 0) then mul sample (of_Z 0x8000) else mul sample (of_Z 0x7FFF).

(** Lines 169-173: the inner loop over the frames of channel [i], from
    frame [j] on; [channelData] holds the frames still to be written. *)
Fixpoint frame_loop (view : bytes) (numberOfChannels i j : Z) (channelData : list float) : result bytes :=
  match channelData with
  | [] => Ok view
  | x :: rest =>
      let index := 44 + (j * numberOfChannels + i) * 2 in
      let sample := clamp_sample x in
      view ← setInt16 view index (scale_sample sample) true;
      frame_loop view numberOfChannels i (j + 1) rest
  end.

(** Lines 167-174: the outer loop, [n] channels from channel [i] on. *)
Fixpoint channel_loop (view : bytes) (buffer : AudioBuffer.t) (numberOfChannels i : Z) (n : nat) : result bytes :=
  match n with
  | O => Ok view
  | S n' =>
      channelData ← AudioBuffer.getChannelData buffer i;
      view ← frame_loop view numberOfChannels i 0 channelData;
      channel_loop view buffer numberOfChannels (i + 1) n'
  end.

(** The function returns a [Blob] over the array buffer; the model returns
    the bytes. *)
Definition audioBufferToWav (host : Host) (buffer : AudioBuffer.t) : result bytes :=
  let numberOfChannels := AudioBuffer.numberOfChannels buffer in
  let length := AudioBuffer.length buffer * numberOfChannels * 2 in
  view ← ArrayBuffer_new host (44 + length);
  view ← writeString view 0 "RIFF";
  view ← setUint32 view 4 (of_Z (36 + length)) true;
  view ← writeString view 8 "WAVE";
  view ← writeString view 12 "fmt ";
  view ← setUint32 view 16 (of_Z 16) true;
  view ← setUint16 view 20 (of_Z 1) true;
  view ← setUint16 view 22 (of_Z numberOfChannels) true;
  view ← setUint32 view 24 (AudioBuffer.sampleRate buffer) true;
  view ← setUint32 view 28
           (mul (mul (AudioBuffer.sampleRate buffer) (of_Z numberOfChannels)) (of_Z 2)) true;
  view ← setUint16 view 32 (of_Z (numberOfChannels * 2)) true;
  view ← setUint16 view 34 (of_Z 16) true;
  view ← writeString view 36 "data";
  view ← setUint32 view 40 (of_Z length) true;
  view ← channel_loop view buffer numberOfChannels 0 (Z.to_nat (AudioBuffer.numberOfChannels buffer));
  Ok view.

(** ** The MIDI timeline, as [@tonejs/midi] hands it over

    Times are Numbers, in seconds.  [Midi.duration] is the value of the
    library's getter, carried as data: the getter belongs to [@tonejs/midi],
    not to this repository (see [duration_invariant] below). *)

Module Note.
Record t : Type := { midi : Z; velocity : float; time : float; duration : float }.
End Note.

Module Track.
Record t : Type := { notes : list Note.t }.
End Track.

Module Midi.
Record t : Type := { tracks : list Track.t; duration : float }.
End Midi.

(** ** Web Audio: an offline context with one worklet node *)

(** The messages the application posts to the node's port (lines 101-104,
    113-118, 120-124). *)
Inductive Message : Type :=
| loadSoundfont (data : bytes)
| noteOn (note : Z) (velocity time : float)
| noteOff (note : Z) (time : float).

Module AudioContext.
Record t : Type := { sampleRate : float }.
End AudioContext.

Module WebAudio.

Definition zero : float := S754_zero false.

(** Frames per render quantum. *)
Definition renderQuantum : nat := 128.

(** A registered [AudioWorkletProcessor] class: the state of an instance,
    the handler installed on [this.port.onmessage] if there is one, and
    [process(inputs, outputs)], which returns the state, the content of
    the output arrays after the call, and its boolean result. *)
Record Processor (State : Type) : Type := {
  init : State;
  onmessage : option (State -> Message -> State);
  process : State -> list (list (list float)) -> list (list (list float)) ->
            State * list (list (list float)) * bool
}.

Arguments init {State} _.
Arguments onmessage {State} _.
Arguments process {State} _ _ _ _.

Module OfflineAudioContext.
Record t : Type := { numberOfChannels : Z; length : Z; sampleRate : float }.
End OfflineAudioContext.

(** [new OfflineAudioContext(numberOfChannels, length, sampleRate)]: the
    length is converted to [unsigned long]; a length of zero and a channel
    count outside 1..32 are refused with [NotSupportedError].  The sample
    rate the application passes is the rate of a running [AudioContext]
    and is accepted. *)
Definition OfflineAudioContext_new (numberOfChannels : Z) (length : float) (sampleRate : float)
  : result OfflineAudioContext.t :=
  let length := ToUint32 length in
  if (numberOfChannels <? 1) || (32 <? numberOfChannels) || (length =? 0)
  then Throw (DOMException "NotSupportedError")
  else Ok {| OfflineAudioContext.numberOfChannels := numberOfChannels;
             OfflineAudioContext.length := length;
             OfflineAudioContext.sampleRate := sampleRate |}.

(** An [AudioWorkletNode]: the processor instance's state and the messages
    queued on its port, oldest first. *)
Record AudioWorkletNode (State : Type) : Type := {
  processor : Processor State;
  state : State;
  port : list Message
}.

Arguments processor {State} _.
Arguments state {State} _.
Arguments port {State} _.

Definition AudioWorkletNode_new {State : Type} (p : Processor State) : AudioWorkletNode State :=
  {| processor := p; state := init p; port := [] |}.

Definition postMessage {State : Type} (node : AudioWorkletNode State) (message : Message)
  : AudioWorkletNode State :=
  {| processor := processor node; state := state node; port := port node ++ [message] |}.

(** Delivery of the queued messages: each goes to the handler; without a
    handler it is dropped. *)
Definition deliver {State : Type} (node : AudioWorkletNode State) : State :=
  match onmessage (processor node) with
  | Some handler => fold_left handler (port node) (state node)
  | None => state node
  end.

(** The node has no input connection and one mono output.  For each render
    quantum the output array is zero-filled before [process] is called;
    once [process] has returned [false] the node is silent. *)
Fixpoint render_quanta {State : Type} (p : Processor State) (st : State) (active : bool) (n : nat)
  : list (list float) :=
  match n with
  | O => []
  | S n' =>
      let silence := replicate renderQuantum zero in
      if active then
        let '(st', outputs, keep) := process p st [[]] [[silence]] in
        let block := match outputs with
                     | (channel :: _) :: _ => take renderQuantum (channel ++ silence)
                     | _ => silence
                     end in
        block :: render_quanta p st' keep n'
      else silence :: render_quanta p st false n'
  end.

(** What rendering produces with the node connected to the destination:
    the destination up-mixes the mono signal to each of its channels, and
    the rendered buffer keeps the first [length] frames. *)
Definition render_graph {State : Type} (ctx : OfflineAudioContext.t) (node : AudioWorkletNode State)
  : AudioBuffer.t :=
  let length := Z.to_nat (OfflineAudioContext.length ctx) in
  let quanta := Nat.div (length + (renderQuantum - 1)) renderQuantum in
  let signal := take length (concat (render_quanta (processor node) (deliver node) true quanta)) in
  {| AudioBuffer.numberOfChannels := OfflineAudioContext.numberOfChannels ctx;
     AudioBuffer.length := OfflineAudioContext.length ctx;
     AudioBuffer.sampleRate := OfflineAudioContext.sampleRate ctx;
     AudioBuffer.channelData :=
       replicate (Z.to_nat (OfflineAudioContext.numberOfChannels ctx)) signal |}.

(** [await startRendering()]: the promise is rejected when the host cannot
    render, and otherwise resolves to the rendered buffer. *)
Definition startRendering {State : Type} (host : Host) (ctx : OfflineAudioContext.t)
    (node : AudioWorkletNode State) : result AudioBuffer.t :=
  _ ← settle (rendering host (OfflineAudioContext.numberOfChannels ctx)
                              (OfflineAudioContext.length ctx));
  Ok (render_graph ctx node).

End WebAudio.

Export WebAudio.

(** ** The renderer: [processMidiWithSoundfont], App.tsx lines 69-136 *)

(** Lines 87-93: the processor class the application registers.  Its
    [process] leaves the output arrays as it finds them and returns
    [true]; it installs no message handler and keeps no state. *)
Definition SoundfontProcessor : Processor unit :=
  {| init := tt;
     onmessage := None;
     process := fun st inputs outputs => (st, outputs, true) |}.

(** The references the component holds (lines 17-19). *)
Record App : Type := {
  audioContextRef : option AudioContext.t;
  midiDataRef : option Midi.t;
  soundfontDataRef : option bytes
}.

(** Lines 109-125: the body of the inner [forEach]. *)
Definition schedule_note {State : Type} (synthNode : AudioWorkletNode State) (note : Note.t)
  : AudioWorkletNode State :=
  let noteOnTime := Note.time note in
  let noteOffTime := add noteOnTime (Note.duration note) in
  let synthNode := postMessage synthNode (noteOn (Note.midi note) (Note.velocity note) noteOnTime) in
  postMessage synthNode (noteOff (Note.midi note) noteOffTime).

(** Lines 108-126: [midi.tracks.forEach(track => track.notes.forEach(...))]. *)
Definition schedule_events {State : Type} (synthNode : AudioWorkletNode State) (midi : Midi.t)
  : AudioWorkletNode State :=
  fold_left (fun node track => fold_left schedule_note (Track.notes track) node)
            (Midi.tracks midi) synthNode.

(** Lines 97-126: the node, once constructed, with everything the
    application posts to it. *)
Definition scheduled_node (soundfont : option bytes) (midi : Midi.t) : AudioWorkletNode unit :=
  let synthNode := AudioWorkletNode_new SoundfontProcessor in
  let synthNode := match soundfont with
                   | Some data => postMessage synthNode (loadSoundfont data)
                   | None => synthNode
                   end in
  schedule_events synthNode midi.

(** Lines 74-131: the buffer that [startRendering] resolves to.  The
    context is constructed (line 78), the module added (line 85), the node
    constructed (line 97), the messages posted, and the graph rendered
    (line 131), in this order. *)
Definition renderedBuffer (host : Host) (ctx : AudioContext.t) (midi : Midi.t)
    (soundfont : option bytes) : result AudioBuffer.t :=
  offlineCtx ← OfflineAudioContext_new
                 2
                 (Math_ceil (mul (Midi.duration midi) (AudioContext.sampleRate ctx)))
                 (AudioContext.sampleRate ctx);
  _ ← settle (addModule host);
  _ ← settle (newAudioWorkletNode host);
  startRendering host offlineCtx (scheduled_node soundfont midi).

Definition processMidiWithSoundfont (host : Host) (app : App) : result bytes :=
  match audioContextRef app, midiDataRef app with
  | Some ctx, Some midi =>
      renderedBuffer ← renderedBuffer host ctx midi (soundfontDataRef app);
      audioBufferToWav host renderedBuffer
  | _, _ => Throw (JsError "Audio context or MIDI data not initialized")
  end.

(** ** Reading the output back, and the vocabulary of the statements *)

(** [n] bytes from byte [offset] on. *)
Definition slice (offset n : nat) (l : bytes) : bytes := take n (drop offset l).

(** A little-endian unsigned integer. *)
Fixpoint le_decode (bs : bytes) : Z :=
  match bs with
  | [] => 0
  | b :: rest => b + 256 * le_decode rest
  end.

(** A little-endian two's-complement 16-bit integer. *)
Definition int16_decode (bs : bytes) : Z :=
  let u := le_decode bs in
  if 2 ^ 15 <=? u then u - 2 ^ 16 else u.

Definition ascii_codes (s : String.string) : bytes :=
  map charCode (list_ascii_of_string s).

(** Lines 171-172 followed by the conversion inside [setInt16]: the 16-bit
    value stored for the sample [x]. *)
Definition pcm16 (x : float) : Z := ToInt16 (scale_sample (clamp_sample x)).

(** The byte index, within the data chunk, of byte [b] of frame [f] of
    channel [c] (line 170, less the 44 header bytes). *)
Definition slot (numberOfChannels f c b : Z) : nat :=
  Z.to_nat ((f * numberOfChannels + c) * 2 + b).

(** The Number line 159 computes: [sampleRate * numberOfChannels * 2]. *)
Definition byte_rate (sampleRate : float) (numberOfChannels : Z) : float :=
  mul (mul sampleRate (of_Z numberOfChannels)) (of_Z 2).

(** The 44 bytes lines 151-163 produce. *)
Definition wav_header (numberOfChannels length : Z) (sampleRate : float) : bytes :=
  [82; 73; 70; 70] ++ le_bytes 4 (ToUint32 (of_Z (36 + length))) ++
  [87; 65; 86; 69] ++ [102; 109; 116; 32] ++
  le_bytes 4 (ToUint32 (of_Z 16)) ++ le_bytes 2 (ToUint16 (of_Z 1)) ++
  le_bytes 2 (ToUint16 (of_Z numberOfChannels)) ++
  le_bytes 4 (ToUint32 sampleRate) ++
  le_bytes 4 (ToUint32 (byte_rate sampleRate numberOfChannels)) ++
  le_bytes 2 (ToUint16 (of_Z (numberOfChannels * 2))) ++ le_bytes 2 (ToUint16 (of_Z 16)) ++
  [100; 97; 116; 97] ++ le_bytes 4 (ToUint32 (of_Z length)).

(** A Number strictly above 32767 or strictly below -32768. *)
Definition outside_int16 (v : float) : bool :=
  lt (of_Z 32767) v || lt v (of_Z (-32768)).

(** A Number that is not outside, and whose integer part [ToInt16] leaves
    as it is. *)
Definition within_int16 (v : float) : Prop :=
  lt (of_Z 32767) v = false /\ lt v (of_Z (-32768)) = false /\
  -32768 <= truncate v <= 32767.

(** The place of a Number that is not NaN in the order [Math.max] uses:
    -Infinity, the negative finite Numbers, -0, +0, the positive finite
    Numbers, +Infinity. *)
Definition rank (x : float) : Z * Z * Z :=
  match x with
  | S754_infinity true => (-3, 0, 0)
  | S754_finite true m e => (-2, - e, - Z.pos m)
  | S754_zero true => (-1, 0, 0)
  | S754_zero false => (0, 0, 0)
  | S754_nan => (0, 0, 0)
  | S754_finite false m e => (1, e, Z.pos m)
  | S754_infinity false => (2, 0, 0)
  end.

Definition rank_lt (r r' : Z * Z * Z) : Prop :=
  let '(a, b, c) := r in
  let '(a', b', c') := r' in
  a < a' \/ (a = a' /\ (b < b' \/ (b = b' /\ c < c'))).

(** All note events of a timeline, track after track. *)
Definition events (midi : Midi.t) : list Note.t :=
  concat (map Track.notes (Midi.tracks midi)).

Definition end_time (note : Note.t) : float := add (Note.time note) (Note.duration note).

Definition max_end_time (evs : list Note.t) : float := Math_max (map end_time evs).

(** Modelled from the spec: the getter [Midi.duration] belongs to
    [@tonejs/midi], whose code is not part of this repository.  Section 3
    of the spec gives its value: "duration of the timeline = max over all
    events of (startTime+duration)".  The maximum over no event is
    [Math.max()], which is -Infinity. *)
Definition duration_invariant (midi : Midi.t) : Prop :=
  Midi.duration midi = max_end_time (events midi).

(** The two messages line 113-124 post for one note. *)
Definition note_messages (note : Note.t) : list Message :=
  [noteOn (Note.midi note) (Note.velocity note) (Note.time note);
   noteOff (Note.midi note) (add (Note.time note) (Note.duration note))].



(** The timeline with every note's velocity replaced by [f note]. *)
Definition with_velocities (f : Note.t -> float) (midi : Midi.t) : Midi.t :=
  {| Midi.tracks :=
       map (fun track =>
              {| Track.notes :=
                   map (fun note => {| Note.midi := Note.midi note;
                                       Note.velocity := f note;
                                       Note.time := Note.time note;
                                       Note.duration := Note.duration note |})
                       (Track.notes track) |})
           (Midi.tracks midi);
     Midi.duration := Midi.duration midi |}.

(** The frame count line 80 passes to the offline context, before its
    conversion to [unsigned long]. *)
Definition frame_count (midi : Midi.t) (ctx : AudioContext.t) : float :=
  Math_ceil (mul (Midi.duration midi) (AudioContext.sampleRate ctx)).

(** The first of the host's failures on the way to the rendered buffer
    of [frames] frames in two channels (lines 85, 97, 131), if any. *)
Definition rendering_failure (host : Host) (frames : Z) : option exn :=
  match addModule host with
  | Some e => Some e
  | None =>
      match newAudioWorkletNode host with
      | Some e => Some e
      | None => rendering host 2 frames
      end
  end.

(** The same, up to the array buffer of line 141. *)
Definition conversion_failure (host : Host) (frames : Z) : option exn :=
  match rendering_failure host frames with
  | Some e => Some e
  | None =>
      if allocates host (44 + frames * 2 * 2) then None else Some RangeError
  end.

(** ** Concrete inputs *)

Definition one_half : float := S754_finite false 4503599627370496 (-53).

(** Two channels of two frames: 1, -1 and 0.5, NaN. *)
Definition small_buffer : AudioBuffer.t :=
  {| AudioBuffer.numberOfChannels := 2;
     AudioBuffer.length := 2;
     AudioBuffer.sampleRate := of_Z 44100;
     AudioBuffer.channelData := [[of_Z 1; of_Z (-1)]; [one_half; S754_nan]] |}.

(** 22050.5, a sample rate that is not integral. *)
Definition rate_22050_5 : float := S754_finite false 6061195287068672 (-38).

(** One channel of one frame at 22050.5 Hz. *)
Definition fractional_buffer : AudioBuffer.t :=
  {| AudioBuffer.numberOfChannels := 1;
     AudioBuffer.length := 1;
     AudioBuffer.sampleRate := rate_22050_5;
     AudioBuffer.channelData := [[one_half]] |}.

(** Two channels of two frames at 22050.5 Hz. *)
Definition fractional_stereo : AudioBuffer.t :=
  {| AudioBuffer.numberOfChannels := 2;
     AudioBuffer.length := 2;
     AudioBuffer.sampleRate := rate_22050_5;
     AudioBuffer.channelData := [[zero; one_half]; [one_half; zero]] |}.

(** Four silent channels of 2^28 frames at 48000 Hz (93 minutes): each
    channel's [Float32Array] takes 2^30 bytes, the encoded samples 2^31. *)
Definition quad_buffer : AudioBuffer.t :=
  {| AudioBuffer.numberOfChannels := 4;
     AudioBuffer.length := 268435456;
     AudioBuffer.sampleRate := of_Z 48000;
     AudioBuffer.channelData := replicate 4 (replicate (Z.to_nat 268435456) zero) |}.

(** A host on which no call fails. *)
Definition reliable : Host :=
  {| createByteDataBlock := fun _ => true;
     addModule := None;
     newAudioWorkletNode := None;
     rendering := fun _ _ => None |}.

(** A host whose array buffers hold fewer than 2^31 bytes, and which fails
    nowhere else. *)
Definition two_gigabytes : Host :=
  {| createByteDataBlock := fun size => size <? 2 ^ 31;
     addModule := None;
     newAudioWorkletNode := None;
     rendering := fun _ _ => None |}.

Definition context_44100 : AudioContext.t := {| AudioContext.sampleRate := of_Z 44100 |}.

Definition app_of (midi : Midi.t) (soundfont : option bytes) : App :=
  {| audioContextRef := Some context_44100;
     midiDataRef := Some midi;
     soundfontDataRef := soundfont |}.

(** One track holding the note A4 (key 69), velocity 1, from 0 s to 1 s. *)
Definition a4_midi : Midi.t :=
  {| Midi.tracks :=
       [ {| Track.notes := [ {| Note.midi := 69; Note.velocity := of_Z 1;
                                Note.time := zero; Note.duration := of_Z 1 |} ] |} ];
     Midi.duration := of_Z 1 |}.

(** The same note with velocity 0. *)
Definition mute_midi : Midi.t :=
  {| Midi.tracks :=
       [ {| Track.notes := [ {| Note.midi := 69; Note.velocity := zero;
                                Note.time := zero; Note.duration := of_Z 1 |} ] |} ];
     Midi.duration := of_Z 1 |}.

(** A track that is not in time order: key 60 at 1 s, then key 62 at 0 s,
    each lasting one second; and the same two notes the other way round. *)
Definition late_note : Note.t :=
  {| Note.midi := 60; Note.velocity := one_half; Note.time := of_Z 1; Note.duration := of_Z 1 |}.

Definition early_note : Note.t :=
  {| Note.midi := 62; Note.velocity := one_half; Note.time := zero; Note.duration := of_Z 1 |}.

Definition unsorted_midi : Midi.t :=
  {| Midi.tracks := [ {| Track.notes := [late_note; early_note] |} ];
     Midi.duration := of_Z 2 |}.

Definition sorted_midi : Midi.t :=
  {| Midi.tracks := [ {| Track.notes := [early_note; late_note] |} ];
     Midi.duration := of_Z 2 |}.

(** A timeline with one track and no note, for which the library reports
    the duration 0. *)
Definition empty_midi : Midi.t :=
  {| Midi.tracks := [ {| Track.notes := [] |} ]; Midi.duration := zero |}.

(** A timeline without any track, for which the library reports the
    maximum over nothing, -Infinity. *)
Definition trackless_midi : Midi.t :=
  {| Midi.tracks := []; Midi.duration := S754_infinity true |}.

(** One note of one second starting at 100000 s (27 h 46 min). *)
Definition distant_midi : Midi.t :=
  {| Midi.tracks :=
       [ {| Track.notes := [ {| Note.midi := 69; Note.velocity := one_half;
                                Note.time := of_Z 100000; Note.duration := of_Z 1 |} ] |} ];
     Midi.duration := of_Z 100001 |}.

(** ** The component around the renderer: uploads and conversion

    Lines 11-67 and 179-209.  React state and refs are read and written
    in program order; playback (lines 211-241, Tone.js) is left out. *)

Module File.
Record t : Type := { name : String.string; content : bytes }.
End File.

(** What the component obtains from outside: the host, [new Midi(await
    file.arrayBuffer())], [await file.arrayBuffer()], and the [message]
    the platform gives a [DOMException] or [RangeError] of a given name. *)
Record Platform : Type := {
  platformHost : Host;
  readMidi : File.t -> result Midi.t;
  readSoundfont : File.t -> result bytes;
  platformMessage : String.string -> String.string
}.

(** [(err as Error).message]. *)
Definition exn_message (P : Platform) (e : exn) : String.string :=
  match e with
  | JsError message => message
  | _ => platformMessage P (exn_name e)
  end.

(** [String.prototype.endsWith(searchString)].  Strings are sequences of
    characters that the two functions below only compare for equality. *)
Definition endsWith (s searchString : String.string) : bool :=
  let n := String.length s in
  let k := String.length searchString in
  (k <=? n)%nat && String.eqb (substring (n - k) k s) searchString.

(** [String.prototype.replace(searchValue, replaceValue)] for a string
    pattern and a replacement without [$]: the leftmost occurrence only. *)
Fixpoint String_replace (s searchValue replaceValue : String.string) : String.string :=
  if String.prefix searchValue s
  then String.append replaceValue
         (substring (String.length searchValue) (String.length s - String.length searchValue) s)
  else match s with
       | EmptyString => EmptyString
       | String c rest => String c (String_replace rest searchValue replaceValue)
       end.

(** The state hooks of lines 11-16 (without [isPlaying]) and the refs of
    lines 17-19. *)
Record Component : Type := {
  refs : App;
  midiFile : option File.t;
  soundfontFile : option File.t;
  isConverting : bool;
  error : String.string;
  progress : Z
}.

Definition setMidiFile (file : File.t) (st : Component) : Component :=
  {| refs := refs st; midiFile := Some file; soundfontFile := soundfontFile st;
     isConverting := isConverting st; error := error st; progress := progress st |}.

Definition setSoundfontFile (file : File.t) (st : Component) : Component :=
  {| refs := refs st; midiFile := midiFile st; soundfontFile := Some file;
     isConverting := isConverting st; error := error st; progress := progress st |}.

Definition setIsConverting (b : bool) (st : Component) : Component :=
  {| refs := refs st; midiFile := midiFile st; soundfontFile := soundfontFile st;
     isConverting := b; error := error st; progress := progress st |}.

Definition setError (message : String.string) (st : Component) : Component :=
  {| refs := refs st; midiFile := midiFile st; soundfontFile := soundfontFile st;
     isConverting := isConverting st; error := message; progress := progress st |}.

Definition setProgress (p : Z) (st : Component) : Component :=
  {| refs := refs st; midiFile := midiFile st; soundfontFile := soundfontFile st;
     isConverting := isConverting st; error := error st; progress := p |}.

Definition set_midiDataRef (midi : Midi.t) (st : Component) : Component :=
  {| refs := {| audioContextRef := audioContextRef (refs st);
                midiDataRef := Some midi;
                soundfontDataRef := soundfontDataRef (refs st) |};
     midiFile := midiFile st; soundfontFile := soundfontFile st;
     isConverting := isConverting st; error := error st; progress := progress st |}.

Definition set_soundfontDataRef (data : bytes) (st : Component) : Component :=
  {| refs := {| audioContextRef := audioContextRef (refs st);
                midiDataRef := midiDataRef (refs st);
                soundfontDataRef := Some data |};
     midiFile := midiFile st; soundfontFile := soundfontFile st;
     isConverting := isConverting st; error := error st; progress := progress st |}.

(** The component once mounted: the initial values of the hooks, and the
    effect of lines 22-25 done. *)
Definition mounted (ctx : AudioContext.t) : Component :=
  {| refs := {| audioContextRef := Some ctx; midiDataRef := None; soundfontDataRef := None |};
     midiFile := None; soundfontFile := None;
     isConverting := false; error := ""; progress := 0 |}.

(** Lines 37-51; [file] is [event.target.files?.[0]]. *)
Definition handleMidiUpload (P : Platform) (file : option File.t) (st : Component) : Component :=
  match file with
  | Some file =>
      if endsWith (File.name file) ".mid" then
        match readMidi P file with
        | Ok midi => setError "" (setMidiFile file (set_midiDataRef midi st))
        | Throw err => setError (String.append "Invalid MIDI file: " (exn_message P err)) st
        end
      else setError "Please upload a valid MIDI file" st
  | None => setError "Please upload a valid MIDI file" st
  end.

(** Lines 53-67. *)
Definition handleSoundfontUpload (P : Platform) (file : option File.t) (st : Component) : Component :=
  match file with
  | Some file =>
      if endsWith (File.name file) ".sf2" then
        match readSoundfont P file with
        | Ok arrayBuffer => setError "" (setSoundfontFile file (set_soundfontDataRef arrayBuffer st))
        | Throw err => setError (String.append "Invalid Soundfont file: " (exn_message P err)) st
        end
      else setError "Please upload a valid Soundfont file (.sf2)" st
  | None => setError "Please upload a valid Soundfont file (.sf2)" st
  end.

(** The file the browser is made to download (lines 192-200). *)
Record Download : Type := { download : String.string; blob : bytes }.

(** Lines 179-209: the state after the call, and the download if one was
    started. *)
Definition convertToWav (P : Platform) (st : Component) : Component * option Download :=
  match midiFile st with
  | None => (setError "Please upload a MIDI file first" st, None)
  | Some midiFile =>
      let st := setProgress 0 (setError "" (setIsConverting true st)) in
      match processMidiWithSoundfont (platformHost P) (refs st) with
      | Ok wavBlob =>
          (setProgress 100 (setIsConverting false st),
           Some {| download := String_replace (File.name midiFile) ".mid" ".wav"; blob := wavBlob |})
      | Throw err =>
          (setProgress 0 (setIsConverting false
             (setError (String.append "Error converting MIDI: " (exn_message P err)) st)),
           None)
      end
  end.

(** What the user can do to the mounted component.  The handlers are
    asynchronous; each one is taken to have run to completion before the
    next event is handled. *)
Inductive Event : Type :=
| MidiUpload (file : option File.t)
| SoundfontUpload (file : option File.t)
| Convert.

Definition step (P : Platform) (st : Component) (ev : Event) : Component :=
  match ev with
  | MidiUpload file => handleMidiUpload P file st
  | SoundfontUpload file => handleSoundfontUpload P file st
  | Convert => fst (convertToWav P st)
  end.

Definition run (P : Platform) (evs : list Event) (st : Component) : Component :=
  fold_left (step P) evs st.

(** What the markup shows of the state: the progress bar (line 299), and
    the [disabled] attributes of the Play button (line 311) and of the
    Convert button (line 324). *)
Definition progressBarShown (st : Component) : bool :=
  (0 <? progress st) && (progress st <? 100).

Definition playDisabled (st : Component) : bool :=
  match midiFile st with Some _ => false | None => true end.

Definition convertDisabled (st : Component) : bool :=
  match midiFile st with Some _ => false | None => true end || isConverting st.

(** The refs agree with the files shown: a MIDI file is shown exactly when
    its parsed timeline is held, a soundfont file exactly when its bytes
    are held; the audio context stays the mounted one, and no handler
    leaves the component converting. *)
Definition consistent (P : Platform) (ctx : AudioContext.t) (st : Component) : Prop :=
  audioContextRef (refs st) = Some ctx /\
  isConverting st = false /\
  match midiFile st with
  | Some file => endsWith (File.name file) ".mid" = true /\
                 exists midi, readMidi P file = Ok midi /\ midiDataRef (refs st) = Some midi
  | None => midiDataRef (refs st) = None
  end /\
  match soundfontFile st with
  | Some file => endsWith (File.name file) ".sf2" = true /\
                 exists data, readSoundfont P file = Ok data /\ soundfontDataRef (refs st) = Some data
  | None => soundfontDataRef (refs st) = None
  end.

(** * Facts

    ** Binary64 arithmetic: digits, exact shifts, exact products *)

Lemma digits2_pos_bounds (m : positive) :
  2 ^ (Z.pos (digits2_pos m) - 1) <= Z.pos m < 2 ^ Z.pos (digits2_pos m).
Proof.
  induction m as [m IH|m IH|]; cbn [digits2_pos].
  - rewrite Pos2Z.inj_succ.
    replace (Z.succ (Z.pos (digits2_pos m)) - 1) with (Z.succ (Z.pos (digits2_pos m) - 1)) by lia.
    rewrite !Z.pow_succ_r by lia. lia.
  - rewrite Pos2Z.inj_succ.
    replace (Z.succ (Z.pos (digits2_pos m)) - 1) with (Z.succ (Z.pos (digits2_pos m) - 1)) by lia.
    rewrite !Z.pow_succ_r by lia. lia.
  - cbn. lia.
Qed.

Lemma digits2_pos_unique (m : positive) (d : Z) :
  2 ^ (d - 1) <= Z.pos m < 2 ^ d -> Z.pos (digits2_pos m) = d.
Proof.
  intros [Hl Hu]. pose proof (digits2_pos_bounds m) as [Hl' Hu'].
  assert (0 < d).
  { destruct (Z.ltb_spec 0 d); [done|]. 
    assert (2 ^ d <= 2 ^ 0) by (destruct (Z.ltb_spec d 0); [rewrite Z.pow_neg_r by lia; cbn; lia| apply Z.pow_le_mono_r; lia]).
    cbn in *. lia. }
  destruct (Z.lt_trichotomy (Z.pos (digits2_pos m)) d) as [Hlt|[->|Hgt]]; [|done|].
  - assert (2 ^ Z.pos (digits2_pos m) <= 2 ^ (d - 1)) by (apply Z.pow_le_mono_r; lia). lia.
  - assert (2 ^ d <= 2 ^ (Z.pos (digits2_pos m) - 1)) by (apply Z.pow_le_mono_r; lia). lia.
Qed.

Lemma iter_shr_1_exact (p : positive) : forall (M : Z),
  (2 ^ Z.pos p | M) ->
  SpecFloat.iter_pos shr_1 p {| shr_m := M; shr_r := false; shr_s := false |}
  = {| shr_m := M / 2 ^ Z.pos p; shr_r := false; shr_s := false |}.
Proof.
  assert (Hone : forall M, (2 | M) ->
     shr_1 {| shr_m := M; shr_r := false; shr_s := false |}
     = {| shr_m := M / 2; shr_r := false; shr_s := false |}).
  { intros M [k ->]. rewrite Z.div_mul by lia.
    rewrite (Z.mul_comm k 2). destruct k as [|k|k]; reflexivity. }
  induction p as [p IH|p IH|]; intros M HM; cbn [SpecFloat.iter_pos].
  - replace (Z.pos p~1) with (1 + Z.pos p + Z.pos p) in * by lia.
    rewrite !Z.pow_add_r in * by lia. change (2 ^ 1) with 2 in *.
    assert (HP : 0 < 2 ^ Z.pos p) by (apply Z.pow_pos_nonneg; lia).
    set (P := 2 ^ Z.pos p) in *.
    destruct HM as [k ->].
    rewrite Hone by (exists (k * P * P); lia).
    replace (k * (2 * P * P) / 2) with (k * P * P)
      by (apply Z.div_unique_exact; lia).
    rewrite IH by (exists (k * P); lia).
    rewrite Z.div_mul by lia.
    rewrite IH by (exists k; lia).
    rewrite Z.div_mul by lia.
    f_equal. apply Z.div_unique_exact; lia.
  - replace (Z.pos p~0) with (Z.pos p + Z.pos p) in * by lia.
    rewrite !Z.pow_add_r in * by lia.
    assert (HP : 0 < 2 ^ Z.pos p) by (apply Z.pow_pos_nonneg; lia).
    set (P := 2 ^ Z.pos p) in *.
    destruct HM as [k ->].
    rewrite IH by (exists (k * P); lia).
    replace (k * (P * P) / P) with (k * P)
      by (apply Z.div_unique_exact; lia).
    rewrite IH by (exists k; lia).
    rewrite Z.div_mul by lia.
    f_equal. apply Z.div_unique_exact; lia.
  - change (2 ^ 1) with 2 in *. apply Hone. exact HM.
Qed.

Lemma digits2_pos_quot (M : positive) (n : Z) (q : positive) :
  0 <= n -> Z.pos M = Z.pos q * 2 ^ n ->
  Z.pos (digits2_pos q) = Z.pos (digits2_pos M) - n.
Proof.
  intros Hn HM. pose proof (digits2_pos_bounds M) as [Hl Hu].
  assert (HP : 0 < 2 ^ n) by (apply Z.pow_pos_nonneg; lia).
  assert (Hnd : n < Z.pos (digits2_pos M)).
  { destruct (Z.ltb_spec n (Z.pos (digits2_pos M))); [done|].
    assert (2 ^ Z.pos (digits2_pos M) <= 2 ^ n) by (apply Z.pow_le_mono_r; lia). nia. }
  apply digits2_pos_unique.
  replace (Z.pos (digits2_pos M)) with ((Z.pos (digits2_pos M) - n) + n) in Hu by lia.
  replace (Z.pos (digits2_pos M) - 1) with ((Z.pos (digits2_pos M) - n - 1) + n) in Hl by lia.
  rewrite Z.pow_add_r in Hl, Hu by lia. nia.
Qed.

Lemma binary_round_aux_exact (s : bool) (M : positive) (E n : Z) (q : positive) :
  n = fexp 53 1024 (Z.pos (digits2_pos M) + E) - E ->
  0 <= n -> Z.pos M = Z.pos q * 2 ^ n -> E + n <= 971 ->
  binary_round_aux 53 1024 s (Z.pos M) E loc_Exact = S754_finite s q (E + n).
Proof.
  intros Hn Hn0 HM HE.
  assert (HP : 0 < 2 ^ n) by (apply Z.pow_pos_nonneg; lia).
  pose proof (digits2_pos_quot M n q Hn0 HM) as Hdq.
  assert (Hsecond : fexp 53 1024 (Z.pos (digits2_pos q) + (E + n)) - (E + n) = 0).
  { rewrite Hdq. replace (Z.pos (digits2_pos M) - n + (E + n)) with (Z.pos (digits2_pos M) + E) by lia. lia. }
  unfold binary_round_aux, shr_fexp. cbn [Zdigits2 shr_record_of_loc].
  rewrite <- Hn.
  assert (Hfirst : shr {| shr_m := Z.pos M; shr_r := false; shr_s := false |} E n
           = ({| shr_m := Z.pos q; shr_r := false; shr_s := false |}, E + n)).
  { destruct n as [|p|p]; [| |lia].
    - cbn. rewrite Z.add_0_r. repeat f_equal. change (2 ^ 0) with 1 in HM. lia.
    - cbn [shr]. rewrite iter_shr_1_exact by (exists (Z.pos q); lia).
      rewrite HM, Z.div_mul by lia. reflexivity. }
  rewrite Hfirst. cbn [shr_m loc_of_shr_record round_nearest_even Zdigits2 shr_record_of_loc].
  rewrite Hsecond. cbn [shr shr_m].
  destruct (Z.leb_spec (E + n) (1024 - 53)); [reflexivity|lia].
Qed.

Lemma pow2_pos (n : Z) : 0 <= n -> 0 < 2 ^ n.
Proof. intros. apply Z.pow_pos_nonneg; lia. Qed.

Lemma valid_binary_finite (s : bool) (m : positive) (e : Z) :
  valid_binary prec emax (S754_finite s m e) = true ->
  e = Z.max (Z.pos (digits2_pos m) + e - 53) (-1074) /\ e <= 971.
Proof.
  unfold valid_binary, bounded, canonical_mantissa, fexp, SpecFloat.emin, prec, emax.
  intros H. apply andb_prop in H as [H1 H2].
  apply Z.eqb_eq in H1. apply Z.leb_le in H2. lia.
Qed.

Lemma digits2_pos_mul (m mc : positive) :
  Z.pos (digits2_pos mc) = 53 ->
  Z.pos (digits2_pos m) + 52 <= Z.pos (digits2_pos (m * mc)) <= Z.pos (digits2_pos m) + 53.
Proof.
  intros Hc.
  pose proof (digits2_pos_bounds m) as [Hl Hu].
  pose proof (digits2_pos_bounds mc) as [Hlc Huc]. rewrite Hc in Hlc, Huc.
  pose proof (digits2_pos_bounds (m * mc)) as [Hlp Hup].
  rewrite Pos2Z.inj_mul in Hlp, Hup.
  set (d := Z.pos (digits2_pos m)) in *. set (dp := Z.pos (digits2_pos (m * mc))) in *.
  assert (Hd : 0 < d) by (unfold d; lia).
  assert (H1 : 0 < 2 ^ (d - 1)) by (apply pow2_pos; lia).
  split.
  - destruct (Z.leb_spec (d + 52) dp); [done|].
    assert (2 ^ dp <= 2 ^ (d - 1 + 52)) by (apply Z.pow_le_mono_r; lia).
    rewrite Z.pow_add_r in * by lia. change (53 - 1) with 52 in *. nia.
  - destruct (Z.leb_spec dp (d + 53)); [done|].
    assert (2 ^ (d + 53) <= 2 ^ (dp - 1)) by (apply Z.pow_le_mono_r; lia).
    rewrite Z.pow_add_r in * by lia.
    assert (0 < 2 ^ d) by (apply pow2_pos; lia). nia.
Qed.

Lemma shift_pos_pow2 (d p : positive) : Z.pos (shift_pos d p) = Z.pos p * 2 ^ Z.pos d.
Proof. rewrite shift_pos_correct, Z.pow_pos_fold. lia. Qed.

(** An integer below 2^53 in magnitude is a Number, exactly. *)
Lemma of_pos_normal (s : bool) (p : positive) :
  Z.pos p < 2 ^ 53 ->
  exists (m : positive) (e : Z),
    binary_round 53 1024 s p 0 = S754_finite s m e /\
    -52 <= e <= 0 /\ Z.pos m = Z.pos p * 2 ^ (- e) /\ Z.pos (digits2_pos m) = 53.
Proof.
  intros Hp.
  pose proof (digits2_pos_bounds p) as [Hl Hu].
  assert (Hd : Z.pos (digits2_pos p) <= 53).
  { destruct (Z.leb_spec (Z.pos (digits2_pos p)) 53) as [|Hgt]; [assumption|].
    assert (2 ^ 53 <= 2 ^ (Z.pos (digits2_pos p) - 1)) by (apply Z.pow_le_mono_r; lia). lia. }
  unfold binary_round, shl_align.
  assert (Hf : fexp 53 1024 (Z.pos (digits2_pos p) + 0) = Z.pos (digits2_pos p) - 53).
  { unfold fexp, emin. lia. }
  rewrite Hf.
  destruct (Z.pos (digits2_pos p) - 53 - 0) as [|d|d] eqn:Hdiff; [|lia|].
  - exists p, 0. split; [|split; [lia|split; [cbn; lia|lia]]].
    rewrite (binary_round_aux_exact s p 0 0 p); [reflexivity|unfold fexp, emin; lia|lia|lia|lia].
  - change (PosDef.Pos.iter xO p d) with (shift_pos d p).
    set (e := Z.pos (digits2_pos p) - 53).
    assert (Hm : Z.pos (shift_pos d p) = Z.pos p * 2 ^ (- e)).
    { rewrite shift_pos_pow2. f_equal. f_equal. lia. }
    assert (Hdm : Z.pos (digits2_pos (shift_pos d p)) = 53).
    { apply digits2_pos_unique. rewrite Hm.
      replace 53 with (Z.pos (digits2_pos p) + - e) at 2 by lia.
      replace (53 - 1) with ((Z.pos (digits2_pos p) - 1) + - e) by lia.
      rewrite !Z.pow_add_r by lia.
      assert (0 < 2 ^ (- e)) by (apply pow2_pos; lia). nia. }
    exists (shift_pos d p), e. split; [|split; [lia|split; [exact Hm|exact Hdm]]].
    rewrite (binary_round_aux_exact s (shift_pos d p) e 0 (shift_pos d p));
      [f_equal; lia|rewrite Hdm; unfold fexp, emin; lia|lia|lia|lia].
Qed.

Lemma truncate_of_Z (n : Z) : - 2 ^ 53 < n < 2 ^ 53 -> truncate (of_Z n) = n.
Proof.
  intros Hn. unfold of_Z, binary_normalize, prec, emax. destruct n as [|p|p]; [reflexivity| |].
  - destruct (of_pos_normal false p ltac:(lia)) as (m & e & -> & He & Hm & _).
    unfold truncate. destruct (Z.leb_spec 0 e).
    + replace e with 0 in * by lia. cbn in Hm. lia.
    + rewrite Hm. apply Z.div_mul. assert (0 < 2 ^ (- e)) by (apply pow2_pos; lia). lia.
  - destruct (of_pos_normal true p ltac:(lia)) as (m & e & -> & He & Hm & _).
    unfold truncate. destruct (Z.leb_spec 0 e).
    + replace e with 0 in * by lia. cbn in Hm. lia.
    + rewrite Hm, Z.div_mul; [lia|]. assert (0 < 2 ^ (- e)) by (apply pow2_pos; lia). lia.
Qed.

Lemma ToUint32_of_Z (n : Z) : - 2 ^ 53 < n < 2 ^ 53 -> ToUint32 (of_Z n) = n mod 2 ^ 32.
Proof. intros Hn. unfold ToUint32. rewrite truncate_of_Z by exact Hn. reflexivity. Qed.

Lemma ToUint16_of_Z (n : Z) : - 2 ^ 53 < n < 2 ^ 53 -> ToUint16 (of_Z n) = n mod 2 ^ 16.
Proof. intros Hn. unfold ToUint16. rewrite truncate_of_Z by exact Hn. reflexivity. Qed.

Lemma ToUint8_of_Z (n : Z) : - 2 ^ 53 < n < 2 ^ 53 -> ToUint8 (of_Z n) = n mod 2 ^ 8.
Proof. intros Hn. unfold ToUint8. rewrite truncate_of_Z by exact Hn. reflexivity. Qed.

Lemma charCode_range (c : ascii) : 0 <= charCode c < 256.
Proof.
  unfold charCode. pose proof (N_ascii_bounded c) as H.
  change 256 with (Z.of_N 256). lia.
Qed.

Lemma ToUint8_charCode (c : ascii) : ToUint8 (of_Z (charCode c)) = charCode c mod 2 ^ 8.
Proof.
  apply ToUint8_of_Z. pose proof (charCode_range c). change (2 ^ 53) with 9007199254740992. lia.
Qed.

Lemma mul_const_exact (s : bool) (m : positive) (e : Z) (mc : positive) (ec : Z) :
  valid_binary prec emax (S754_finite s m e) = true ->
  (2 ^ 29 | Z.pos m) ->
  e <= 0 ->
  Z.pos (digits2_pos mc) = 53 -> (2 ^ 37 | Z.pos mc) -> -38 <= ec <= 0 ->
  exists (q : positive) (n : Z),
    mul (S754_finite s m e) (S754_finite false mc ec) = S754_finite s q (e + ec + n) /\
    0 <= n <= 53 /\
    Z.pos q * 2 ^ n = Z.pos m * Z.pos mc /\
    (n = 53 -> Z.pos (digits2_pos m) = 53).
Proof.
  intros Hv [a Ha] He Hc [c Hcm] Hec.
  apply valid_binary_finite in Hv as [Hcan Hmax].
  pose proof (digits2_pos_mul m mc Hc) as Hd.
  set (d := Z.pos (digits2_pos (m * mc))) in *.
  set (n := fexp 53 1024 (d + (e + ec)) - (e + ec)).
  assert (Hn : 29 <= n <= 53 /\ (n = 53 -> Z.pos (digits2_pos m) = 53)).
  { unfold n, fexp, SpecFloat.emin. 
    assert (0 < Z.pos (digits2_pos m)) by lia.
    assert (30 <= Z.pos (digits2_pos m)).
    { pose proof (digits2_pos_bounds m) as [_ Hu].
      destruct (Z.leb_spec 30 (Z.pos (digits2_pos m))); [done|].
      assert (2 ^ Z.pos (digits2_pos m) <= 2 ^ 29) by (apply Z.pow_le_mono_r; lia).
      assert (0 < a) by lia. lia. }
    lia. }
  destruct Hn as [Hn Hn53].
  assert (Hdiv : (2 ^ n | Z.pos (m * mc))).
  { rewrite Pos2Z.inj_mul, Ha, Hcm.
    exists (a * c * 2 ^ (66 - n)).
    replace (a * 2 ^ 29 * (c * 2 ^ 37)) with (a * c * 2 ^ (66 - n + n))
      by (replace (66 - n + n) with (29 + 37) by lia; rewrite Z.pow_add_r by lia; ring).
    rewrite Z.pow_add_r by lia. ring. }
  destruct Hdiv as [q Hq].
  assert (Hqpos : 0 < q).
  { assert (0 < 2 ^ n) by (apply pow2_pos; lia). nia. }
  destruct q as [|q|q]; try lia.
  exists q, n. split; [|split; [lia|split; [|exact Hn53]]].
  - unfold mul, SFmul, prec, emax. rewrite xorb_false_r.
    rewrite (binary_round_aux_exact s (m * mc) (e + ec) n q); [f_equal; lia|reflexivity|lia|exact Hq|lia].
  - rewrite <- Hq. lia.
Qed.

Lemma mul_const_bound (s : bool) (m : positive) (e : Z) (mc : positive) (ec C : Z) :
  valid_binary prec emax (S754_finite s m e) = true ->
  (2 ^ 29 | Z.pos m) ->
  e <= -53 ->
  Z.pos (digits2_pos mc) = 53 -> (2 ^ 37 | Z.pos mc) -> -38 <= ec <= 0 ->
  Z.pos mc = C * 2 ^ (- ec) ->
  exists (q : positive) (ev : Z),
    mul (S754_finite s m e) (S754_finite false mc ec) = S754_finite s q ev /\
    ev <= ec /\ (ev = ec -> Z.pos q < Z.pos mc) /\ Z.pos q < C * 2 ^ (- ev).
Proof.
  intros Hv Hm He Hc Hmc Hec HC.
  destruct (mul_const_exact s m e mc ec Hv Hm ltac:(lia) Hc Hmc Hec) as (q & n & Hmul & Hn & Hq & Hn53).
  apply valid_binary_finite in Hv as [Hcan _].
  pose proof (digits2_pos_bounds m) as [_ Hu].
  assert (Hm53 : Z.pos m < 2 ^ 53).
  { assert (2 ^ Z.pos (digits2_pos m) <= 2 ^ 53) by (apply Z.pow_le_mono_r; lia). lia. }
  assert (Hme : Z.pos m < 2 ^ (- e)).
  { assert (2 ^ 53 <= 2 ^ (- e)) by (apply Z.pow_le_mono_r; lia). lia. }
  assert (HPn : 0 < 2 ^ n) by (apply pow2_pos; lia).
  exists q, (e + ec + n). split; [exact Hmul|]. split; [lia|]. split.
  - intros Hev. assert (n = 53) by lia. subst n. nia.
  - assert (Hsplit : 2 ^ (- e) * 2 ^ (- ec) = 2 ^ n * 2 ^ (- (e + ec + n))).
    { rewrite <- !Z.pow_add_r by lia. f_equal. lia. }
    assert (0 < 2 ^ (- (e + ec + n))) by (apply pow2_pos; lia).
    assert (0 < 2 ^ (- ec)) by (apply pow2_pos; lia).
    assert (0 < C) by nia.
    apply (Z.mul_lt_mono_pos_r (2 ^ n)); [lia|].
    rewrite Hq, HC.
    replace (C * 2 ^ (- (e + ec + n)) * 2 ^ n) with (C * (2 ^ (- e) * 2 ^ (- ec))) by (rewrite Hsplit; ring).
    nia.
Qed.


Lemma float32_representable_finite (s : bool) (m : positive) (e : Z) :
  float32_representable (S754_finite s m e) = true ->
  valid_binary prec emax (S754_finite s m e) = true /\ (2 ^ 29 | Z.pos m).
Proof.
  unfold float32_representable. intros H. apply andb_prop in H as [H1 H2].
  split; [exact H1|]. apply Z.eqb_eq in H2. apply Z.mod_divide; [lia|exact H2].
Qed.

(** A valid binary64 below 1 in magnitude has an exponent of at most -53. *)
Lemma below_one_exponent (s : bool) (m : positive) (e : Z) :
  valid_binary prec emax (S754_finite s m e) = true ->
  (e < -52 \/ (e = -52 /\ Z.pos m < 2 ^ 52)) -> e <= -53.
Proof.
  intros Hv H. apply valid_binary_finite in Hv as [Hcan _].
  destruct H as [H|[-> H]]; [lia|].
  pose proof (digits2_pos_bounds m) as [Hl _].
  assert (Z.pos (digits2_pos m) = 53) by lia.
  replace (Z.pos (digits2_pos m) - 1) with 52 in Hl by lia. lia.
Qed.

Ltac eval_of_Z :=
  repeat match goal with
         | |- context [of_Z ?n] =>
             let v := eval vm_compute in (of_Z n) in change (of_Z n) with v
         end.

Lemma clamp_sample_finite (s : bool) (m : positive) (e : Z) :
  let x := S754_finite s m e in
  clamp_sample x =
    if s then (if lt (of_Z (-1)) x then x else of_Z (-1))
    else (if lt x (of_Z 1) then x else of_Z 1).
Proof.
  unfold clamp_sample; eval_of_Z.
  destruct s; cbn -[Z.compare Pos.compare_cont];
    repeat match goal with
           | |- context [match ?c with Eq => _ | Lt => _ | Gt => _ end] => destruct c
           end; reflexivity.
Qed.

Lemma lt_finite_one (m : positive) (e : Z) :
  lt (S754_finite false m e) (of_Z 1) = true ->
  e < -52 \/ (e = -52 /\ Z.pos m < 2 ^ 52).
Proof.
  intros H. revert H. eval_of_Z. unfold lt, SFltb, SFcompare.
  rewrite Pos.compare_cont_spec. cbn [Pos.switch_Eq]. rewrite Pos2Z.inj_compare.
  change (2 ^ 52) with (Z.pos 4503599627370496).
  destruct (Z.compare_spec e (-52)); [|lia|discriminate].
  destruct (Z.compare_spec (Z.pos m) (Z.pos 4503599627370496)); try discriminate.
  intros _. right. split; assumption.
Qed.

Lemma lt_minus_one_finite (m : positive) (e : Z) :
  lt (of_Z (-1)) (S754_finite true m e) = true ->
  e < -52 \/ (e = -52 /\ Z.pos m < 2 ^ 52).
Proof.
  intros H. revert H. eval_of_Z. unfold lt, SFltb, SFcompare.
  rewrite Pos.compare_cont_spec. cbn [Pos.switch_Eq]. rewrite Pos2Z.inj_compare.
  change (2 ^ 52) with (Z.pos 4503599627370496).
  destruct (Z.compare_spec (-52) e); [|discriminate|lia].
  destruct (Z.compare_spec (Z.pos 4503599627370496) (Z.pos m)); try discriminate.
  intros _. right. split; [symmetry|]; assumption.
Qed.


Lemma truncate_small (s : bool) (q : positive) (ev C : Z) :
  ev <= 0 -> Z.pos q < C * 2 ^ (- ev) ->
  - C < truncate (S754_finite s q ev) < C.
Proof.
  intros Hev Hq. unfold truncate.
  assert (HP : 0 < 2 ^ (- ev)) by (apply pow2_pos; lia).
  assert (Hdiv : 0 <= Z.pos q / 2 ^ (- ev) < C).
  { split; [apply Z.div_pos; lia|]. apply Z.div_lt_upper_bound; lia. }
  destruct (Z.leb_spec 0 ev).
  - assert (ev = 0) by lia. subst ev. change (2 ^ 0) with 1 in *. change (- 0) with 0 in *.
    change (2 ^ 0) with 1 in *. destruct s; lia.
  - destruct s; lia.
Qed.

Lemma scale_positive_within (m : positive) (e : Z) :
  float32_representable (S754_finite false m e) = true ->
  e <= -53 ->
  within_int16 (mul (S754_finite false m e) (of_Z 32767)).
Proof.
  intros Hr He. apply float32_representable_finite in Hr as [Hv Hm].
  unfold within_int16. eval_of_Z.
  destruct (mul_const_bound false m e 9006924376834048 (-38) 32767 Hv Hm He)
    as (q & ev & -> & Hev & Hq & Hb);
    [reflexivity|exists 65534; reflexivity|lia|reflexivity|].
  pose proof (truncate_small false q ev 32767 ltac:(lia) Hb).
  split; [|split; [reflexivity|lia]].
  unfold lt, SFltb, SFcompare. rewrite Pos.compare_cont_spec. cbn [Pos.switch_Eq].
  rewrite Pos2Z.inj_compare.
  destruct (Z.compare_spec (-38) ev); [|lia|reflexivity].
  destruct (Z.compare_spec (Z.pos 9006924376834048) (Z.pos q)); [reflexivity| |reflexivity].
  specialize (Hq ltac:(lia)). lia.
Qed.

Lemma scale_negative_within (m : positive) (e : Z) :
  float32_representable (S754_finite true m e) = true ->
  e <= -53 ->
  within_int16 (mul (S754_finite true m e) (of_Z 32768)).
Proof.
  intros Hr He. apply float32_representable_finite in Hr as [Hv Hm].
  unfold within_int16. eval_of_Z.
  destruct (mul_const_bound true m e 4503599627370496 (-37) 32768 Hv Hm He)
    as (q & ev & -> & Hev & Hq & Hb);
    [reflexivity|exists 32768; reflexivity|lia|reflexivity|].
  pose proof (truncate_small true q ev 32768 ltac:(lia) Hb).
  split; [reflexivity|split; [|lia]].
  unfold lt, SFltb, SFcompare. rewrite Pos.compare_cont_spec. cbn [Pos.switch_Eq].
  rewrite Pos2Z.inj_compare.
  destruct (Z.compare_spec ev (-37)); [|reflexivity|lia].
  destruct (Z.compare_spec (Z.pos q) (Z.pos 4503599627370496)); [reflexivity|reflexivity|].
  specialize (Hq ltac:(lia)). lia.
Qed.

Ltac within_by_computation :=
  unfold within_int16; vm_compute; repeat split; (reflexivity || discriminate).

Lemma scale_sample_nonneg (m : positive) (e : Z) :
  scale_sample (S754_finite false m e) = mul (S754_finite false m e) (of_Z 32767).
Proof. reflexivity. Qed.

Lemma scale_sample_neg (m : positive) (e : Z) :
  scale_sample (S754_finite true m e) = mul (S754_finite true m e) (of_Z 32768).
Proof. reflexivity. Qed.

Lemma scaled_sample_within (x : float) :
  float32_representable x = true -> is_nan x = false ->
  within_int16 (scale_sample (clamp_sample x)).
Proof.
  intros Hr Hn. destruct x as [s|s| |s m e].
  - destruct s; within_by_computation.
  - destruct s; within_by_computation.
  - discriminate.
  - pose proof (float32_representable_finite _ _ _ Hr) as [Hv _].
    rewrite clamp_sample_finite. destruct s.
    + destruct (lt (of_Z (-1)) (S754_finite true m e)) eqn:Hlt.
      * rewrite scale_sample_neg. apply scale_negative_within; [exact Hr|].
        apply (below_one_exponent true m e Hv), lt_minus_one_finite, Hlt.
      * within_by_computation.
    + destruct (lt (S754_finite false m e) (of_Z 1)) eqn:Hlt.
      * rewrite scale_sample_nonneg. apply scale_positive_within; [exact Hr|].
        apply (below_one_exponent false m e Hv), lt_finite_one, Hlt.
      * within_by_computation.
Qed.

Lemma scaled_sample_nan : scale_sample (clamp_sample S754_nan) = S754_nan.
Proof. reflexivity. Qed.

Lemma ToInt16_within (v : float) :
  -32768 <= truncate v <= 32767 -> ToInt16 v = truncate v.
Proof.
  intros H. unfold ToInt16. change (2 ^ 16) with 65536. change (2 ^ 15) with 32768.
  destruct (Z.ltb_spec (truncate v) 0).
  - replace (truncate v mod 65536) with (truncate v + 65536)
      by (apply (Z.mod_unique _ _ (-1)); lia).
    destruct (Z.leb_spec 32768 (truncate v + 65536)); lia.
  - rewrite Z.mod_small by lia.
    destruct (Z.leb_spec 32768 (truncate v)); lia.
Qed.

(** ** The encoder writes the header, then every sample in its slot *)

Lemma list_inserts_prefix (i : nat) (k A B : list Z) :
  (i + length k <= length A)%nat ->
  list_inserts i k (A ++ B) = list_inserts i k A ++ B.
Proof.
  revert i. induction k as [|y k IH]; intros i Hi; [reflexivity|].
  cbn [list_inserts]. cbn [length] in Hi.
  rewrite IH by lia. apply insert_app_l. rewrite length_inserts. lia.
Qed.

Lemma store_app_l (A B : bytes) (off : Z) (raw : list Z) :
  0 <= off -> off + Z.of_nat (length raw) <= Z.of_nat (length A) ->
  store (A ++ B) off raw = Ok (list_inserts (Z.to_nat off) raw A ++ B).
Proof.
  intros H0 H1. unfold store. rewrite length_app.
  destruct (Z.leb_spec 0 off); [|lia].
  destruct (Z.leb_spec (off + Z.of_nat (length raw)) (Z.of_nat (length A + length B))); [|lia].
  cbn [andb]. f_equal. apply list_inserts_prefix. lia.
Qed.

Lemma store_app_r (A B : bytes) (off : Z) (raw : list Z) :
  Z.of_nat (length A) <= off ->
  off + Z.of_nat (length raw) <= Z.of_nat (length A) + Z.of_nat (length B) ->
  store (A ++ B) off raw = Ok (A ++ list_inserts (Z.to_nat (off - Z.of_nat (length A))) raw B).
Proof.
  intros H0 H1. unfold store. rewrite length_app.
  destruct (Z.leb_spec 0 off); [|lia].
  destruct (Z.leb_spec (off + Z.of_nat (length raw)) (Z.of_nat (length A + length B))); [|lia].
  cbn [andb]. f_equal.
  replace (Z.to_nat off) with (length A + Z.to_nat (off - Z.of_nat (length A)))%nat by lia.
  apply list_inserts_app_r.
Qed.


Lemma bind_Ok {A B : Type} (a : A) (k : A -> result B) : (Ok a ≫= k) = k a.
Proof. reflexivity. Qed.

Lemma writeString_from_app_l (string : String.string) : forall (A B : bytes) (offset i : Z),
  0 <= offset + i ->
  offset + i + Z.of_nat (String.length string) <= Z.of_nat (length A) ->
  writeString_from (A ++ B) offset i string
  = Ok (list_inserts (Z.to_nat (offset + i))
          (map (fun c => charCode c mod 2 ^ 8 mod 256) (list_ascii_of_string string)) A ++ B).
Proof.
  induction string as [|c rest IH]; intros A B offset i H0 H1; [reflexivity|].
  cbn [writeString_from String.length list_ascii_of_string map] in *.
  unfold setUint8, raw_bytes. rewrite ToUint8_charCode. cbn [le_bytes].
  rewrite store_app_l by (cbn [length]; lia). rewrite bind_Ok.
  rewrite IH by (rewrite ?length_inserts; lia).
  f_equal. f_equal.
  replace (Z.to_nat (offset + (i + 1))) with (S (Z.to_nat (offset + i))) by lia.
  cbn [list_inserts].
  symmetry. apply list_insert_inserts_lt. lia.
Qed.

Lemma writeString_app_l (string : String.string) (A B : bytes) (offset : Z) :
  0 <= offset ->
  offset + Z.of_nat (String.length string) <= Z.of_nat (length A) ->
  writeString (A ++ B) offset string
  = Ok (list_inserts (Z.to_nat offset)
          (map (fun c => charCode c mod 2 ^ 8 mod 256) (list_ascii_of_string string)) A ++ B).
Proof.
  intros. unfold writeString. rewrite writeString_from_app_l by lia.
  rewrite Z.add_0_r. reflexivity.
Qed.

Ltac header_write :=
  first [ rewrite writeString_app_l by (rewrite ?length_inserts, ?length_replicate; cbn; lia)
        | rewrite store_app_l by (rewrite ?length_inserts, ?length_replicate; cbn; lia) ];
  rewrite bind_Ok.

Lemma header_phase (nch len : Z) (sr : float) (B : bytes) (k : bytes -> result bytes) :
  (view ← writeString (replicate 44 0 ++ B) 0 "RIFF";
   view ← setUint32 view 4 (of_Z (36 + len)) true;
   view ← writeString view 8 "WAVE";
   view ← writeString view 12 "fmt ";
   view ← setUint32 view 16 (of_Z 16) true;
   view ← setUint16 view 20 (of_Z 1) true;
   view ← setUint16 view 22 (of_Z nch) true;
   view ← setUint32 view 24 sr true;
   view ← setUint32 view 28 (mul (mul sr (of_Z nch)) (of_Z 2)) true;
   view ← setUint16 view 32 (of_Z (nch * 2)) true;
   view ← setUint16 view 34 (of_Z 16) true;
   view ← writeString view 36 "data";
   view ← setUint32 view 40 (of_Z len) true;
   k view) = k (wav_header nch len sr ++ B).
Proof.
  unfold setUint32, setUint16, raw_bytes.
  do 13 header_write.
  reflexivity.
Qed.



Lemma slot_distinct (nch f c b f' c' b' : Z) :
  0 <= c < nch -> 0 <= c' < nch -> 0 <= f -> 0 <= f' -> 0 <= b < 2 -> 0 <= b' < 2 ->
  (f, c, b) <> (f', c', b') -> slot nch f c b <> slot nch f' c' b'.
Proof.
  intros Hc Hc' Hf Hf' Hb Hb' Hne Heq. apply Hne. unfold slot in Heq.
  assert (Hz : (f * nch + c) * 2 + b = (f' * nch + c') * 2 + b') by nia.
  assert (b = b') by lia. subst b'.
  assert (Hfc : f * nch + c = f' * nch + c') by lia.
  assert (f = f') by nia. subst f'.
  assert (c = c') by lia. subst c'. reflexivity.
Qed.

Section DataPhase.

Variable H : bytes.
Hypothesis H_length : length H = 44%nat.
Variable nch : Z.

Lemma frame_loop_spec (i : Z) (Hi : 0 <= i < nch) (data : list float) :
  forall (D : bytes) (j : Z),
    0 <= j ->
    (j + Z.of_nat (length data)) * nch * 2 <= Z.of_nat (length D) ->
    exists D' : bytes,
      frame_loop (H ++ D) nch i j data = Ok (H ++ D') /\
      length D' = length D /\
      (forall (t : nat) (x : float), data !! t = Some x ->
         D' !! slot nch (j + Z.of_nat t) i 0 = Some (pcm16 x mod 256) /\
         D' !! slot nch (j + Z.of_nat t) i 1 = Some (pcm16 x / 256 mod 256)) /\
      (forall f c b, 0 <= f -> 0 <= c < nch -> 0 <= b < 2 -> c <> i \/ f < j ->
         D' !! slot nch f c b = D !! slot nch f c b).
Proof.
  induction data as [|x rest IH]; intros D j Hj Hlen.
  - exists D. split; [reflexivity|]. split; [reflexivity|].
    split; [intros t x Hx; rewrite lookup_nil in Hx; discriminate|intros; reflexivity].
  - cbn [length] in Hlen. cbn [frame_loop].
    unfold setInt16, raw_bytes. cbn [le_bytes]. fold (pcm16 x).
    rewrite store_app_r by (rewrite H_length; cbn [length]; nia).
    rewrite bind_Ok. rewrite H_length.
    replace (Z.to_nat (44 + (j * nch + i) * 2 - Z.of_nat 44)) with (slot nch j i 0) by (unfold slot; lia).
    set (D1 := list_inserts (slot nch j i 0) [pcm16 x mod 256; pcm16 x / 256 mod 256] D).
    assert (HD1 : length D1 = length D) by apply length_inserts.
    destruct (IH D1 (j + 1) ltac:(lia) ltac:(rewrite HD1; lia)) as (D' & Hrun & HlenD' & Hwritten & Hkept).
    exists D'. split; [exact Hrun|]. split; [lia|]. split.
    + intros [|t] y Hy.
      * cbn in Hy. injection Hy as <-. rewrite Z.add_0_r.
        rewrite !Hkept by lia. unfold D1.
        assert (Hs1 : slot nch j i 1 = S (slot nch j i 0)) by (unfold slot; nia).
        assert (Hbound : (slot nch j i 0 + 2 <= length D)%nat) by (unfold slot; nia).
        split.
        -- rewrite list_lookup_inserts; [|cbn [length]; lia|lia].
           rewrite Nat.sub_diag. reflexivity.
        -- rewrite list_lookup_inserts; [|cbn [length]; lia|lia].
           rewrite Hs1. replace (S (slot nch j i 0) - slot nch j i 0)%nat with 1%nat by lia.
           reflexivity.
      * cbn in Hy. replace (j + Z.of_nat (S t)) with (j + 1 + Z.of_nat t) by lia.
        apply Hwritten, Hy.
    + intros f c b Hf Hc Hb Hcase.
      rewrite Hkept by lia. unfold D1.
      assert (Hne0 : slot nch f c b <> slot nch j i 0)
        by (apply slot_distinct; try lia; intros [= -> -> ->]; lia).
      assert (Hne1 : slot nch f c b <> slot nch j i 1)
        by (apply slot_distinct; try lia; intros [= -> -> ->]; lia).
      assert (slot nch j i 1 = S (slot nch j i 0)) by (unfold slot; nia).
      destruct (Nat.lt_ge_cases (slot nch f c b) (slot nch j i 0)).
      * apply list_lookup_inserts_lt. assumption.
      * apply list_lookup_inserts_ge. cbn [length]. lia.
Qed.

End DataPhase.

Lemma wf_channel_length (buffer : AudioBuffer.t) (c : nat) (data : list float) :
  AudioBuffer.wf buffer -> AudioBuffer.channelData buffer !! c = Some data ->
  Z.of_nat (length data) = AudioBuffer.length buffer.
Proof.
  intros (_ & Hall & _) Hc. rewrite Forall_forall in Hall. apply Hall.
  eapply list_elem_of_lookup_2, Hc.
Qed.

Section ChannelPhase.

Variable H : bytes.
Hypothesis H_length : length H = 44%nat.
Variable buffer : AudioBuffer.t.
Hypothesis buffer_wf : AudioBuffer.wf buffer.

Let nch : Z := AudioBuffer.numberOfChannels buffer.
Let frames : Z := AudioBuffer.length buffer.

Lemma channel_loop_spec (n : nat) :
  forall (i : Z) (D : bytes),
    0 <= i -> i + Z.of_nat n = nch ->
    Z.of_nat (length D) = frames * nch * 2 ->
    exists D' : bytes,
      channel_loop (H ++ D) buffer nch i n = Ok (H ++ D') /\
      length D' = length D /\
      (forall (c : nat) (data : list float) (f : nat) (x : float),
         i <= Z.of_nat c ->
         AudioBuffer.channelData buffer !! c = Some data -> data !! f = Some x ->
         D' !! slot nch (Z.of_nat f) (Z.of_nat c) 0 = Some (pcm16 x mod 256) /\
         D' !! slot nch (Z.of_nat f) (Z.of_nat c) 1 = Some (pcm16 x / 256 mod 256)) /\
      (forall f c b, 0 <= f -> 0 <= c < i -> 0 <= b < 2 ->
         D' !! slot nch f c b = D !! slot nch f c b).
Proof.
  pose proof buffer_wf as [Hnch _]. fold nch in Hnch.
  induction n as [|n IH]; intros i D Hi Hin HD.
  - exists D. split; [reflexivity|]. split; [reflexivity|]. split; [|intros; reflexivity].
    intros c data f x Hc Hdata _. apply lookup_lt_Some in Hdata. lia.
  - cbn [channel_loop]. unfold AudioBuffer.getChannelData.
    destruct (Z.ltb_spec i 0); [lia|].
    destruct (lookup_lt_is_Some_2 (AudioBuffer.channelData buffer) (Z.to_nat i) ltac:(lia))
      as [data Hdata].
    rewrite Hdata, bind_Ok.
    pose proof (wf_channel_length buffer _ data buffer_wf Hdata) as Hlen. fold frames in Hlen.
    destruct (frame_loop_spec H H_length nch i ltac:(lia) data D 0 ltac:(lia) ltac:(lia))
      as (D1 & Hrun1 & HlenD1 & Hwritten1 & Hkept1).
    rewrite Hrun1, bind_Ok.
    destruct (IH (i + 1) D1 ltac:(lia) ltac:(lia) ltac:(lia))
      as (D' & Hrun & HlenD' & Hwritten & Hkept).
    exists D'. split; [exact Hrun|]. split; [lia|]. split.
    + intros c data' f x Hc Hdata' Hx.
      destruct (Z.eq_dec (Z.of_nat c) i) as [Heq|Hne].
      * assert (c = Z.to_nat i) by lia. subst c. rewrite Hdata in Hdata'. injection Hdata' as <-.
        rewrite !Hkept by lia. rewrite Heq.
        specialize (Hwritten1 f x Hx). rewrite Z.add_0_l in Hwritten1. exact Hwritten1.
      * apply (Hwritten c data' f x); [lia|assumption..].
    + intros f c b Hf Hc Hb. rewrite Hkept by lia. apply Hkept1; lia.
Qed.

End ChannelPhase.

(** When the array buffer of line 141 cannot be created, the encoder ends
    there. *)
Lemma audioBufferToWav_RangeError (host : Host) (buffer : AudioBuffer.t) :
  allocates host
    (44 + AudioBuffer.length buffer * AudioBuffer.numberOfChannels buffer * 2) = false ->
  audioBufferToWav host buffer = Throw RangeError.
Proof. intros Halloc. unfold audioBufferToWav, ArrayBuffer_new. rewrite Halloc. reflexivity. Qed.

(** The layout of the encoder's output: the 44 header bytes, then a data
    chunk in which frame [f] of channel [c] occupies two bytes, low byte
    first, at offset [(f * numberOfChannels + c) * 2]. *)
Lemma audioBufferToWav_layout (host : Host) (buffer : AudioBuffer.t) :
  AudioBuffer.wf buffer ->
  let nch := AudioBuffer.numberOfChannels buffer in
  let len := AudioBuffer.length buffer * nch * 2 in
  allocates host (44 + len) = true ->
  exists D : bytes,
    audioBufferToWav host buffer = Ok (wav_header nch len (AudioBuffer.sampleRate buffer) ++ D) /\
    Z.of_nat (length D) = len /\
    (forall (c : nat) (data : list float) (f : nat) (x : float),
       AudioBuffer.channelData buffer !! c = Some data -> data !! f = Some x ->
       D !! slot nch (Z.of_nat f) (Z.of_nat c) 0 = Some (pcm16 x mod 256) /\
       D !! slot nch (Z.of_nat f) (Z.of_nat c) 1 = Some (pcm16 x / 256 mod 256)).
Proof.
  intros Hwf nch len Halloc. pose proof Hwf as (Hnch & Hall & _). fold nch in Hnch.
  assert (Hlen0 : 0 <= len).
  { unfold len. destruct (AudioBuffer.channelData buffer) as [|data rest] eqn:Hcd.
    - cbn in Hnch. rewrite Hnch. lia.
    - pose proof (wf_channel_length buffer 0 data Hwf ltac:(rewrite Hcd; reflexivity)). lia. }
  unfold audioBufferToWav. fold nch. fold len.
  unfold ArrayBuffer_new. rewrite Halloc, bind_Ok.
  replace (Z.to_nat (44 + len)) with (44 + Z.to_nat len)%nat by lia.
  rewrite replicate_add.
  rewrite (header_phase nch len (AudioBuffer.sampleRate buffer)).
  destruct (channel_loop_spec (wav_header nch len (AudioBuffer.sampleRate buffer)) eq_refl
              buffer Hwf (Z.to_nat nch) 0 (replicate (Z.to_nat len) 0)
              ltac:(lia) ltac:(fold nch; lia) ltac:(rewrite length_replicate; fold nch; unfold len; lia))
    as (D & Hrun & HlenD & Hwritten & _).
  fold nch in Hrun, Hwritten. rewrite Hrun, bind_Ok.
  exists D. split; [reflexivity|]. split.
  - rewrite HlenD, length_replicate. lia.
  - intros c data f x Hc Hx. apply (Hwritten c data f x); [lia|assumption..].
Qed.

(** ** The offline render through [SoundfontProcessor] *)

Lemma render_quanta_silent (n : nat) : forall (st : unit) ,
  render_quanta SoundfontProcessor st true n = replicate n (replicate renderQuantum zero).
Proof.
  induction n as [|n IH]; intros st; [reflexivity|].
  cbn [render_quanta SoundfontProcessor process]. rewrite IH.
  cbn [replicate]. f_equal.
Qed.

Lemma concat_replicate_replicate {A : Type} (n m : nat) (x : A) :
  concat (replicate n (replicate m x)) = replicate (n * m) x.
Proof.
  induction n as [|n IH]; [reflexivity|].
  cbn [replicate concat Nat.mul]. rewrite IH, <- replicate_add. reflexivity.
Qed.

(** The buffer rendered through [SoundfontProcessor] is silent, whatever
    was posted to the node. *)
Lemma render_graph_silent (ctx : OfflineAudioContext.t) (node : AudioWorkletNode unit) :
  processor node = SoundfontProcessor ->
  AudioBuffer.channelData (render_graph ctx node)
  = replicate (Z.to_nat (OfflineAudioContext.numberOfChannels ctx))
      (replicate (Z.to_nat (OfflineAudioContext.length ctx)) zero).
Proof.
  intros Hp. unfold render_graph. cbn [AudioBuffer.channelData]. f_equal.
  rewrite Hp, render_quanta_silent, concat_replicate_replicate, take_replicate.
  f_equal. unfold renderQuantum.
  set (L := Z.to_nat (OfflineAudioContext.length ctx)).
  pose proof (Nat.div_mod_eq (L + (128 - 1)) 128) as Hdm.
  pose proof (Nat.mod_upper_bound (L + (128 - 1)) 128 ltac:(lia)). lia.
Qed.

Lemma schedule_note_processor {State : Type} (node : AudioWorkletNode State) (note : Note.t) :
  processor (schedule_note node note) = processor node.
Proof. reflexivity. Qed.

Lemma schedule_events_processor {State : Type} (midi : Midi.t) :
  forall node : AudioWorkletNode State, processor (schedule_events node midi) = processor node.
Proof.
  unfold schedule_events. induction (Midi.tracks midi) as [|track tracks IH]; intros node; [reflexivity|].
  cbn [fold_left]. rewrite IH.
  generalize node. induction (Track.notes track) as [|note notes IHn]; intros node'; [reflexivity|].
  cbn [fold_left]. rewrite IHn. apply schedule_note_processor.
Qed.

Lemma scheduled_node_processor (soundfont : option bytes) (midi : Midi.t) :
  processor (scheduled_node soundfont midi) = SoundfontProcessor.
Proof.
  unfold scheduled_node. rewrite schedule_events_processor. destruct soundfont; reflexivity.
Qed.

(** ** [Math.max] is the maximum of a total order *)



Lemma rank_inj (x y : float) :
  is_nan x = false -> is_nan y = false -> rank x = rank y -> x = y.
Proof.
  destruct x as [[]|[]| |[] m e], y as [[]|[]| |[] m' e']; cbn; intros Hx Hy Hr;
    try discriminate; try reflexivity; injection Hr as He Hm; f_equal; lia.
Qed.

Lemma max_step_rank (h x : float) :
  is_nan h = false -> is_nan x = false ->
  (max_step h x = x /\ rank_lt (rank h) (rank x)) \/
  (max_step h x = h /\ ~ rank_lt (rank h) (rank x)).
Proof.
  intros Hh Hx.
  destruct h as [[]|[]| |[] m e], x as [[]|[]| |[] m' e']; try discriminate;
    unfold max_step, lt, SFltb, SFcompare, rank, rank_lt;
    rewrite ?Pos.compare_cont_spec; cbn [Pos.switch_Eq]; rewrite ?Pos2Z.inj_compare;
    try (left; split; [reflexivity|lia]);
    try (right; split; [reflexivity|lia]).
  - destruct (Z.compare_spec e e'); [destruct (Z.compare_spec (Z.pos m) (Z.pos m'))| |];
      cbn [CompOpp]; first [left; split; [reflexivity|lia] | right; split; [reflexivity|lia]].
  - destruct (Z.compare_spec e e'); [destruct (Z.compare_spec (Z.pos m) (Z.pos m'))| |];
      first [left; split; [reflexivity|lia] | right; split; [reflexivity|lia]].
Qed.

Lemma max_step_not_nan (h x : float) :
  is_nan h = false -> is_nan x = false -> is_nan (max_step h x) = false.
Proof.
  intros Hh Hx. destruct (max_step_rank h x Hh Hx) as [[-> _]|[-> _]]; assumption.
Qed.

Lemma max_step_swap (h x y : float) :
  is_nan h = false -> is_nan x = false -> is_nan y = false ->
  max_step (max_step h x) y = max_step (max_step h y) x.
Proof.
  intros Hh Hx Hy.
  destruct (max_step_rank h x Hh Hx) as [[Ex Rx]|[Ex Rx]];
  destruct (max_step_rank h y Hh Hy) as [[Ey Ry]|[Ey Ry]];
  rewrite Ex, Ey;
  try (destruct (max_step_rank x y Hx Hy) as [[Exy Rxy]|[Exy Rxy]]);
  try (destruct (max_step_rank y x Hy Hx) as [[Eyx Ryx]|[Eyx Ryx]]);
  rewrite ?Exy, ?Eyx, ?Ex, ?Ey; try reflexivity;
  try (apply rank_inj; [assumption..|]);
  try (symmetry; apply rank_inj; [assumption..|]);
  unfold rank_lt in *;
  destruct (rank h) as [[a b] c], (rank x) as [[a1 b1] c1], (rank y) as [[a2 b2] c2];
  try (exfalso; lia); try (f_equal; [f_equal|]; lia).
Qed.

Lemma Math_max_from_fold (l : list float) : forall h : float,
  Forall (fun x => is_nan x = false) l ->
  Math_max_from h l = fold_left max_step l h.
Proof.
  induction l as [|x l IH]; intros h Hl; [reflexivity|].
  inversion Hl as [|? ? Hx Hl']; subst. cbn [Math_max_from fold_left]. rewrite Hx. apply IH, Hl'.
Qed.

Lemma Math_max_from_nan (l : list float) : forall h : float,
  Exists (fun x => is_nan x = true) l -> Math_max_from h l = S754_nan.
Proof.
  induction l as [|x l IH]; intros h Hl; [inversion Hl|].
  cbn [Math_max_from]. destruct (is_nan x) eqn:Hx; [reflexivity|].
  inversion Hl as [? ? Hx'|? ? Hl']; subst; [congruence|]. apply IH, Hl'.
Qed.

Lemma fold_max_step_perm (l l' : list float) :
  l ≡ₚ l' ->
  forall h : float, is_nan h = false -> Forall (fun x => is_nan x = false) l ->
  fold_left max_step l h = fold_left max_step l' h.
Proof.
  induction 1 as [|x l l' Hp IH|x y l|l l' l'' Hp IH Hp' IH']; intros h Hh Hl.
  - reflexivity.
  - inversion Hl; subst. cbn [fold_left]. apply IH; [apply max_step_not_nan|]; assumption.
  - inversion Hl as [|? ? Hy Hl']; subst. inversion Hl' as [|? ? Hx Hl'']; subst.
    cbn [fold_left]. rewrite (max_step_swap h y x) by assumption. reflexivity.
  - rewrite IH by assumption. apply IH'; [assumption|].
    rewrite <- Hp. assumption.
Qed.

(** [Math.max] does not depend on the order of its arguments. *)
Lemma Math_max_perm (l l' : list float) : l ≡ₚ l' -> Math_max l = Math_max l'.
Proof.
  intros Hp. unfold Math_max.
  destruct (decide (Forall (fun x => is_nan x = false) l)) as [Hl|Hl].
  - rewrite !Math_max_from_fold by (rewrite <- ?Hp; assumption).
    apply fold_max_step_perm; [assumption|reflexivity|assumption].
  - apply not_Forall_Exists in Hl; [|intros x; apply _].
    assert (Hl' : Exists (fun x => is_nan x = true) l).
    { eapply Exists_impl; [exact Hl|]. intros x Hx. cbn in Hx. destruct (is_nan x); congruence. }
    rewrite !Math_max_from_nan; [reflexivity| |assumption].
    rewrite <- Hp. assumption.
Qed.

(** ** Decoding what the setters stored *)

Lemma le_decode_le_bytes (n : nat) : forall v : Z,
  le_decode (le_bytes n v) = v mod 256 ^ Z.of_nat n.
Proof.
  induction n as [|n IH]; intros v.
  - cbn. rewrite Z.mod_1_r. reflexivity.
  - cbn [le_bytes le_decode]. rewrite IH.
    rewrite Nat2Z.inj_succ, Z.pow_succ_r by lia.
    rewrite Z.rem_mul_r; [reflexivity|lia|apply Z.pow_pos_nonneg; lia].
Qed.

Lemma le_decode_uint32 (v : Z) : le_decode (le_bytes 4 (v mod 2 ^ 32)) = v mod 2 ^ 32.
Proof.
  rewrite le_decode_le_bytes. change (256 ^ Z.of_nat 4) with (2 ^ 32).
  apply Z.mod_mod. lia.
Qed.

Lemma le_decode_uint16 (v : Z) : le_decode (le_bytes 2 (v mod 2 ^ 16)) = v mod 2 ^ 16.
Proof.
  rewrite le_decode_le_bytes. change (256 ^ Z.of_nat 2) with (2 ^ 16).
  apply Z.mod_mod. lia.
Qed.

Lemma ToInt16_range (v : float) : -32768 <= ToInt16 v < 32768.
Proof.
  unfold ToInt16. change (2 ^ 16) with 65536. change (2 ^ 15) with 32768.
  pose proof (Z.mod_pos_bound (truncate v) 65536 ltac:(lia)).
  destruct (Z.leb_spec 32768 (truncate v mod 65536)); lia.
Qed.

Lemma int16_decode_le_bytes (z : Z) :
  -32768 <= z < 32768 -> int16_decode (le_bytes 2 z) = z.
Proof.
  intros Hz. unfold int16_decode. rewrite le_decode_le_bytes.
  change (256 ^ Z.of_nat 2) with 65536. change (2 ^ 16) with 65536. change (2 ^ 15) with 32768.
  destruct (Z.ltb_spec z 0).
  - replace (z mod 65536) with (z + 65536) by (apply (Z.mod_unique _ _ (-1)); lia).
    destruct (Z.leb_spec 32768 (z + 65536)); lia.
  - rewrite Z.mod_small by lia. destruct (Z.leb_spec 32768 z); lia.
Qed.

Lemma slice_two (l : bytes) (k : nat) (a b : Z) :
  l !! k = Some a -> l !! S k = Some b -> slice k 2 l = [a; b].
Proof.
  intros Ha Hb. unfold slice.
  rewrite (drop_S l a k Ha). cbn [take]. f_equal.
  rewrite (drop_S l b (S k) Hb). reflexivity.
Qed.

Lemma slice_app_r (A D : bytes) (k n : nat) :
  slice (length A + k) n (A ++ D) = slice k n D.
Proof. unfold slice. rewrite drop_app_add. reflexivity. Qed.

Lemma wav_header_length (nch len : Z) (sr : float) : length (wav_header nch len sr) = 44%nat.
Proof. reflexivity. Qed.

(** The fields of the header, read back from an output that starts with it. *)
Lemma wav_header_fields (nch len : Z) (sr : float) (D : bytes) :
  0 <= nch < 2 ^ 52 -> 0 <= len -> 36 + len < 2 ^ 53 ->
  let out := wav_header nch len sr ++ D in
  slice 0 4 out = ascii_codes "RIFF" /\
  le_decode (slice 4 4 out) = (36 + len) mod 2 ^ 32 /\
  slice 8 4 out = ascii_codes "WAVE" /\
  slice 12 4 out = ascii_codes "fmt " /\
  le_decode (slice 16 4 out) = 16 /\
  le_decode (slice 20 2 out) = 1 /\
  le_decode (slice 22 2 out) = nch mod 2 ^ 16 /\
  le_decode (slice 24 4 out) = ToUint32 sr /\
  le_decode (slice 28 4 out) = ToUint32 (byte_rate sr nch) /\
  le_decode (slice 32 2 out) = (nch * 2) mod 2 ^ 16 /\
  le_decode (slice 34 2 out) = 16 /\
  slice 36 4 out = ascii_codes "data" /\
  le_decode (slice 40 4 out) = len mod 2 ^ 32.
Proof.
  intros Hnch Hlen0 Hlen out. unfold out, slice, wav_header.
  change (2 ^ 52) with 4503599627370496 in Hnch. change (2 ^ 53) with 9007199254740992 in Hlen.
  rewrite (ToUint32_of_Z (36 + len)), (ToUint16_of_Z nch), (ToUint16_of_Z (nch * 2)),
    (ToUint32_of_Z len) by (change (2 ^ 53) with 9007199254740992; lia).
  cbn [app drop take le_bytes].
  repeat split; try reflexivity.
  - apply (le_decode_uint32 (36 + len)).
  - apply (le_decode_uint16 nch).
  - apply (le_decode_uint32 (truncate sr)).
  - apply (le_decode_uint32 (truncate (byte_rate sr nch))).
  - apply (le_decode_uint16 (nch * 2)).
  - apply (le_decode_uint32 len).
Qed.

(** A sample slot of the output, read back as a signed 16-bit integer. *)
Lemma sample_slot_decode (H D : bytes) (nch : Z) (f c : nat) (x : float) :
  length H = 44%nat ->
  D !! slot nch (Z.of_nat f) (Z.of_nat c) 0 = Some (pcm16 x mod 256) ->
  D !! slot nch (Z.of_nat f) (Z.of_nat c) 1 = Some (pcm16 x / 256 mod 256) ->
  0 <= nch ->
  int16_decode (slice (44 + slot nch (Z.of_nat f) (Z.of_nat c) 0) 2 (H ++ D)) = pcm16 x.
Proof.
  intros HH H0 H1 Hn. rewrite <- HH, slice_app_r.
  assert (Hs : slot nch (Z.of_nat f) (Z.of_nat c) 1 = S (slot nch (Z.of_nat f) (Z.of_nat c) 0))
    by (unfold slot; nia).
  rewrite Hs in H1. rewrite (slice_two D _ _ _ H0 H1).
  apply (int16_decode_le_bytes (pcm16 x)), ToInt16_range.
Qed.

(** ** Silence in, zero bytes out *)

Lemma pcm16_zero : pcm16 zero = 0.
Proof. reflexivity. Qed.

Lemma ToUint32_range (x : float) : 0 <= ToUint32 x < 2 ^ 32.
Proof. unfold ToUint32. apply Z.mod_pos_bound. lia. Qed.

(** Every byte index of the data chunk is the slot of one frame of one channel. *)
Lemma slot_complete (nch frames : Z) (k : nat) :
  0 < nch -> Z.of_nat k < frames * nch * 2 ->
  exists f c b : nat,
    Z.of_nat f < frames /\ Z.of_nat c < nch /\ (b < 2)%nat /\
    k = slot nch (Z.of_nat f) (Z.of_nat c) (Z.of_nat b).
Proof.
  intros Hn Hk.
  set (q := Z.of_nat k / 2).
  pose proof (Z.div_mod (Z.of_nat k) 2 ltac:(lia)) as Hk2.
  pose proof (Z.mod_pos_bound (Z.of_nat k) 2 ltac:(lia)) as Hb.
  pose proof (Z.div_mod q nch ltac:(lia)) as Hq.
  pose proof (Z.mod_pos_bound q nch ltac:(lia)) as Hc.
  assert (0 <= q) by (apply Z.div_pos; lia).
  assert (0 <= q / nch) by (apply Z.div_pos; lia).
  fold q in Hk2.
  exists (Z.to_nat (q / nch)), (Z.to_nat (q mod nch)), (Z.to_nat (Z.of_nat k mod 2)).
  rewrite !Z2Nat.id by lia. unfold slot.
  split; [|split; [lia|split; [lia|]]].
  - assert (q < frames * nch) by lia.
    destruct (Z.ltb_spec (q / nch) frames); [assumption|]. nia.
  - replace ((q / nch * nch + q mod nch) * 2 + Z.of_nat k mod 2) with (Z.of_nat k) by lia. lia.
Qed.

Lemma silent_buffer_data (host : Host) (buffer : AudioBuffer.t) (n L : nat) :
  AudioBuffer.numberOfChannels buffer = Z.of_nat n ->
  AudioBuffer.length buffer = Z.of_nat L ->
  AudioBuffer.channelData buffer = replicate n (replicate L zero) ->
  Z.of_nat n < 2 ^ 32 -> Z.of_nat L < 2 ^ 32 ->
  allocates host (44 + Z.of_nat L * Z.of_nat n * 2) = true ->
  audioBufferToWav host buffer
  = Ok (wav_header (Z.of_nat n) (Z.of_nat L * Z.of_nat n * 2) (AudioBuffer.sampleRate buffer)
        ++ replicate (Z.to_nat (Z.of_nat L * Z.of_nat n * 2)) 0).
Proof.
  intros Hn HL Hcd Hnr HLr Halloc.
  assert (Hwf : AudioBuffer.wf buffer).
  { split; [|split; [|split]].
    - rewrite Hcd, length_replicate. exact Hn.
    - rewrite Hcd. apply Forall_replicate. rewrite length_replicate. symmetry. exact HL.
    - rewrite HL. lia.
    - rewrite Hn. exact Hnr. }
  destruct (audioBufferToWav_layout host buffer Hwf ltac:(rewrite Hn, HL; exact Halloc))
    as (D & Hrun & HlenD & Hslots).
  rewrite Hn in Hrun, HlenD, Hslots. rewrite HL in Hrun, HlenD. rewrite Hrun.
  apply (f_equal Ok), (f_equal (app _)).
  apply list_eq_same_length with (length D); [rewrite length_replicate; lia|reflexivity|].
  intros k a b Hk Ha Hb.
  apply lookup_replicate in Hb as [-> _].
  destruct n as [|n'].
  { rewrite Z.mul_0_r in HlenD. cbn in HlenD. lia. }
  destruct (slot_complete (Z.of_nat (S n')) (Z.of_nat L) k ltac:(lia) ltac:(lia))
    as (f & c & b & Hf & Hc & Hb & ->).
  assert (Hchan : AudioBuffer.channelData buffer !! c = Some (replicate L zero))
    by (rewrite Hcd; apply lookup_replicate_2; lia).
  assert (Hx : replicate L zero !! f = Some zero) by (apply lookup_replicate_2; lia).
  destruct (Hslots c _ f zero Hchan Hx) as [H0 H1].
  rewrite pcm16_zero in H0, H1.
  destruct b as [|[|b]]; [| |lia].
  - change (Z.of_nat 0) with 0 in Ha. rewrite H0 in Ha. injection Ha as <-. reflexivity.
  - change (Z.of_nat 1) with 1 in Ha. rewrite H1 in Ha. injection Ha as <-. reflexivity.
Qed.

(** ** The renderer, step by step *)

Lemma OfflineAudioContext_new_two (length sampleRate : float) :
  OfflineAudioContext_new 2 length sampleRate =
    if ToUint32 length =? 0 then Throw (DOMException "NotSupportedError")
    else Ok {| OfflineAudioContext.numberOfChannels := 2;
               OfflineAudioContext.length := ToUint32 length;
               OfflineAudioContext.sampleRate := sampleRate |}.
Proof. reflexivity. Qed.

(** What [renderedBuffer] returns: a [NotSupportedError] when the frame
    count converts to zero, then the host's first failure if there is
    one, and otherwise the rendered graph. *)
Lemma renderedBuffer_set (host : Host) (ctx : AudioContext.t) (midi : Midi.t)
    (soundfont : option bytes) :
  let frames := ToUint32 (frame_count midi ctx) in
  renderedBuffer host ctx midi soundfont
  = if frames =? 0 then Throw (DOMException "NotSupportedError")
    else match rendering_failure host frames with
         | Some e => Throw e
         | None =>
             Ok (render_graph
                   {| OfflineAudioContext.numberOfChannels := 2;
                      OfflineAudioContext.length := frames;
                      OfflineAudioContext.sampleRate := AudioContext.sampleRate ctx |}
                   (scheduled_node soundfont midi))
         end.
Proof.
  intros frames. unfold renderedBuffer. rewrite OfflineAudioContext_new_two.
  fold (frame_count midi ctx). fold frames. destruct (frames =? 0); [reflexivity|].
  rewrite bind_Ok. unfold rendering_failure, startRendering.
  destruct (addModule host); [reflexivity|].
  destruct (newAudioWorkletNode host); [reflexivity|].
  cbn [settle OfflineAudioContext.numberOfChannels OfflineAudioContext.length].
  rewrite !bind_Ok. destruct (rendering host 2 frames); reflexivity.
Qed.

Lemma rendered_channels_silent (frames : Z) (sampleRate : float) (soundfont : option bytes)
    (midi : Midi.t) :
  AudioBuffer.channelData
    (render_graph {| OfflineAudioContext.numberOfChannels := 2;
                     OfflineAudioContext.length := frames;
                     OfflineAudioContext.sampleRate := sampleRate |}
                  (scheduled_node soundfont midi))
  = replicate 2 (replicate (Z.to_nat frames) zero).
Proof. rewrite render_graph_silent by apply scheduled_node_processor. reflexivity. Qed.

(** What [processMidiWithSoundfont] returns once both references are set:
    a [NotSupportedError] when the frame count converts to zero, then the
    host's first failure if there is one, and otherwise the header for two
    channels followed by zero bytes only. *)
Lemma processMidiWithSoundfont_set (host : Host) (ctx : AudioContext.t) (midi : Midi.t)
    (soundfont : option bytes) :
  let frames := ToUint32 (frame_count midi ctx) in
  processMidiWithSoundfont host
    {| audioContextRef := Some ctx; midiDataRef := Some midi; soundfontDataRef := soundfont |}
  = if frames =? 0 then Throw (DOMException "NotSupportedError")
    else match conversion_failure host frames with
         | Some e => Throw e
         | None => Ok (wav_header 2 (frames * 2 * 2) (AudioContext.sampleRate ctx)
                       ++ replicate (Z.to_nat (frames * 2 * 2)) 0)
         end.
Proof.
  intros frames. unfold processMidiWithSoundfont. cbn [audioContextRef midiDataRef soundfontDataRef].
  rewrite renderedBuffer_set. fold frames. unfold conversion_failure.
  destruct (frames =? 0) eqn:Hz; [reflexivity|].
  destruct (rendering_failure host frames); [reflexivity|].
  rewrite bind_Ok.
  pose proof (ToUint32_range (frame_count midi ctx)) as Hr. fold frames in Hr.
  destruct (allocates host (44 + frames * 2 * 2)) eqn:Halloc.
  - rewrite (silent_buffer_data host _ 2 (Z.to_nat frames)).
    + cbn [render_graph AudioBuffer.sampleRate OfflineAudioContext.sampleRate].
      rewrite Z2Nat.id by lia. reflexivity.
    + reflexivity.
    + cbn [render_graph AudioBuffer.length OfflineAudioContext.length]. lia.
    + apply rendered_channels_silent.
    + cbn. lia.
    + rewrite Z2Nat.id by lia. exact (proj2 Hr).
    + rewrite Z2Nat.id by lia. exact Halloc.
  - apply audioBufferToWav_RangeError.
    cbn [render_graph AudioBuffer.length AudioBuffer.numberOfChannels
         OfflineAudioContext.length OfflineAudioContext.numberOfChannels].
    exact Halloc.
Qed.

(** ** What is posted to the node *)

Lemma schedule_notes_port {State : Type} (notes : list Note.t) :
  forall node : AudioWorkletNode State,
    port (fold_left schedule_note notes node) = port node ++ flat_map note_messages notes.
Proof.
  induction notes as [|note notes IH]; intros node; cbn [fold_left flat_map].
  - rewrite app_nil_r. reflexivity.
  - rewrite IH. unfold schedule_note, postMessage, note_messages. cbn [port].
    rewrite <- !app_assoc. reflexivity.
Qed.

Lemma schedule_events_port {State : Type} (midi : Midi.t) (node : AudioWorkletNode State) :
  port (schedule_events node midi) = port node ++ flat_map note_messages (events midi).
Proof.
  unfold schedule_events, events. revert node.
  induction (Midi.tracks midi) as [|track tracks IH]; intros node; cbn [fold_left map concat].
  - cbn. rewrite app_nil_r. reflexivity.
  - rewrite IH, schedule_notes_port, flat_map_app, app_assoc. reflexivity.
Qed.

Lemma scheduled_node_port (soundfont : option bytes) (midi : Midi.t) :
  port (scheduled_node soundfont midi)
  = match soundfont with Some data => [loadSoundfont data] | None => [] end
    ++ flat_map note_messages (events midi).
Proof.
  unfold scheduled_node. rewrite schedule_events_port. destruct soundfont; reflexivity.
Qed.

(** ** The duration of a timeline does not depend on the order of its events *)

Lemma max_end_time_perm (evs evs' : list Note.t) :
  evs ≡ₚ evs' -> max_end_time evs = max_end_time evs'.
Proof. intros Hp. unfold max_end_time. apply Math_max_perm. rewrite Hp. reflexivity. Qed.

Lemma duration_perm (midi midi' : Midi.t) :
  events midi ≡ₚ events midi' ->
  duration_invariant midi -> duration_invariant midi' ->
  Midi.duration midi = Midi.duration midi'.
Proof.
  unfold duration_invariant. intros Hp -> ->. apply max_end_time_perm, Hp.
Qed.

(** ** A timeline of duration zero asks for zero frames *)

Lemma frame_count_zero (midi : Midi.t) (ctx : AudioContext.t) :
  Midi.duration midi = zero -> ToUint32 (frame_count midi ctx) = 0.
Proof.
  intros Hd. unfold frame_count. rewrite Hd.
  destruct (AudioContext.sampleRate ctx) as [s|s| |s m e]; reflexivity.
Qed.

(** ** The comparison is asymmetric, and the clamp stays within [-1, 1] *)

Lemma lt_asym (a b : float) : lt a b = true -> lt b a = false.
Proof.
  unfold lt, SFltb, SFcompare.
  destruct a as [[]|[]| |[] m e], b as [[]|[]| |[] m' e']; try discriminate; try reflexivity;
    rewrite ?Pos.compare_cont_spec; cbn [Pos.switch_Eq]; rewrite ?Pos2Z.inj_compare;
    destruct (Z.compare_spec e e'), (Z.compare_spec e' e); try lia; try discriminate; try reflexivity;
    destruct (Z.compare_spec (Z.pos m) (Z.pos m')), (Z.compare_spec (Z.pos m') (Z.pos m));
    try lia; try discriminate; try reflexivity.
Qed.

Lemma clamp_sample_range (x : float) :
  is_nan x = false ->
  is_nan (clamp_sample x) = false /\
  lt (of_Z 1) (clamp_sample x) = false /\ lt (clamp_sample x) (of_Z (-1)) = false.
Proof.
  intros Hn. destruct x as [s|s| |s m e].
  - destruct s; repeat split; reflexivity.
  - destruct s; repeat split; reflexivity.
  - discriminate.
  - rewrite clamp_sample_finite. destruct s.
    + destruct (lt (of_Z (-1)) (S754_finite true m e)) eqn:Hlt.
      * split; [reflexivity|]. split; [reflexivity|]. apply lt_asym, Hlt.
      * repeat split; reflexivity.
    + destruct (lt (S754_finite false m e) (of_Z 1)) eqn:Hlt.
      * split; [reflexivity|]. split; [|reflexivity]. apply lt_asym, Hlt.
      * repeat split; reflexivity.
Qed.



Lemma events_with_velocities (f : Note.t -> float) (midi : Midi.t) :
  events (with_velocities f midi)
  = map (fun note => {| Note.midi := Note.midi note; Note.velocity := f note;
                        Note.time := Note.time note; Note.duration := Note.duration note |})
        (events midi).
Proof.
  unfold events, with_velocities. cbn [Midi.tracks].
  induction (Midi.tracks midi) as [|track tracks IH]; [reflexivity|].
  cbn [map concat Track.notes]. rewrite IH, map_app. reflexivity.
Qed.

Lemma clamp_sample_inside (x : float) :
  is_nan x = false -> lt x (of_Z (-1)) = false -> lt (of_Z 1) x = false ->
  clamp_sample x = x.
Proof.
  intros Hn Hlo Hhi. destruct x as [s|s| |s m e].
  - destruct s; reflexivity.
  - destruct s; discriminate.
  - discriminate.
  - rewrite clamp_sample_finite. destruct s.
    + destruct (lt (of_Z (-1)) (S754_finite true m e)) eqn:Hlt; [reflexivity|].
      revert Hlo Hlt. eval_of_Z. unfold lt, SFltb, SFcompare.
      rewrite !Pos.compare_cont_spec. cbn [Pos.switch_Eq]. rewrite !Pos2Z.inj_compare.
      destruct (Z.compare_spec e (-52)), (Z.compare_spec (-52) e); try lia; try discriminate.
      destruct (Z.compare_spec (Z.pos m) (Z.pos 4503599627370496)),
               (Z.compare_spec (Z.pos 4503599627370496) (Z.pos m)); try lia; try discriminate.
      intros _ _. f_equal; congruence.
    + destruct (lt (S754_finite false m e) (of_Z 1)) eqn:Hlt; [reflexivity|].
      revert Hhi Hlt. eval_of_Z. unfold lt, SFltb, SFcompare.
      rewrite !Pos.compare_cont_spec. cbn [Pos.switch_Eq]. rewrite !Pos2Z.inj_compare.
      destruct (Z.compare_spec e (-52)), (Z.compare_spec (-52) e); try lia; try discriminate.
      destruct (Z.compare_spec (Z.pos m) (Z.pos 4503599627370496)),
               (Z.compare_spec (Z.pos 4503599627370496) (Z.pos m)); try lia; try discriminate.
      intros _ _. f_equal; congruence.
Qed.

(** * The claims *)

Lemma small_buffer_wf : AudioBuffer.wf small_buffer.
Proof.
  split; [reflexivity|]. split; [repeat constructor|]. split; [|reflexivity].
  split; [discriminate|reflexivity].
Qed.

Lemma fractional_buffer_wf : AudioBuffer.wf fractional_buffer.
Proof.
  split; [reflexivity|]. split; [repeat constructor|]. split; [|reflexivity].
  split; [discriminate|reflexivity].
Qed.

Lemma Ok_inj {A : Type} (a b : A) : Ok a = Ok b -> a = b.
Proof. intros H. exact (f_equal (fun r => match r with Ok v => v | Throw _ => a end) H). Qed.

(** What a well-formed buffer and a successful allocation say of the
    sizes: all of them are integers that a Number holds exactly. *)
Lemma wf_sizes (host : Host) (buffer : AudioBuffer.t) :
  AudioBuffer.wf buffer ->
  let nch := AudioBuffer.numberOfChannels buffer in
  let len := AudioBuffer.length buffer * nch * 2 in
  allocates host (44 + len) = true ->
  0 <= nch < 2 ^ 52 /\ 0 <= len /\ 36 + len < 2 ^ 53.
Proof.
  intros (Hnch & _ & Hlen & Hn) nch len Halloc. fold nch in Hnch, Hn.
  unfold allocates in Halloc.
  apply andb_prop in Halloc as [Halloc _]. apply andb_prop in Halloc as [H0 H1].
  apply Z.leb_le in H0, H1.
  change (2 ^ 32) with 4294967296 in *. change (2 ^ 52) with 4503599627370496.
  change (2 ^ 53) with 9007199254740992 in *.
  assert (0 <= nch) by lia.
  split; [lia|]. split; [unfold len; nia|lia].
Qed.

(** C1, as stated, fails: for one channel at 22050.5 Hz bytes 24-27 do
    not hold the sample rate; they hold 22050. *)
Lemma fractional_rate_truncated :
  ~ (exists out : bytes,
       audioBufferToWav reliable fractional_buffer = Ok out /\
       of_Z (le_decode (slice 24 4 out)) = AudioBuffer.sampleRate fractional_buffer).
Proof.
  intros (out & Hrun & Hrate). vm_compute in Hrun. apply Ok_inj in Hrun. subst out.
  vm_compute in Hrate. discriminate.
Qed.

(** C1, as the code has it.  The encoder returns exactly when the array
    buffer of 44 + dataLength bytes can be created, and then the output
    is: "RIFF", the uint32 36+dataLength, "WAVE", "fmt ", the uint32 16,
    the uint16 1, the uint16 channel count, the sample rate converted to
    uint32 (truncated toward zero, so an integral rate below 2^53 is kept
    modulo 2^32), the uint32 conversion of the Number
    sampleRate*channels*2, the uint16 channels*2, the uint16 16, "data",
    the uint32 dataLength (each field little-endian, holding its value
    modulo the width of the field), and then, for frame [f] of channel
    [c], at byte 44 + (f*channels + c)*2, the sample as a little-endian
    signed 16-bit integer. *)
Theorem wav_container_layout (host : Host) (buffer : AudioBuffer.t) :
  AudioBuffer.wf buffer ->
  let nch := AudioBuffer.numberOfChannels buffer in
  let sr := AudioBuffer.sampleRate buffer in
  let len := AudioBuffer.length buffer * nch * 2 in
  (allocates host (44 + len) = false -> audioBufferToWav host buffer = Throw RangeError) /\
  (allocates host (44 + len) = true ->
   exists out : bytes,
     audioBufferToWav host buffer = Ok out /\
     Z.of_nat (length out) = 44 + len /\
     slice 0 4 out = ascii_codes "RIFF" /\
     le_decode (slice 4 4 out) = (36 + len) mod 2 ^ 32 /\
     slice 8 4 out = ascii_codes "WAVE" /\
     slice 12 4 out = ascii_codes "fmt " /\
     le_decode (slice 16 4 out) = 16 /\
     le_decode (slice 20 2 out) = 1 /\
     le_decode (slice 22 2 out) = nch mod 2 ^ 16 /\
     le_decode (slice 24 4 out) = truncate sr mod 2 ^ 32 /\
     (forall r : Z, sr = of_Z r -> - 2 ^ 53 < r < 2 ^ 53 ->
                    le_decode (slice 24 4 out) = r mod 2 ^ 32) /\
     le_decode (slice 28 4 out) = truncate (mul (mul sr (of_Z nch)) (of_Z 2)) mod 2 ^ 32 /\
     le_decode (slice 32 2 out) = (nch * 2) mod 2 ^ 16 /\
     le_decode (slice 34 2 out) = 16 /\
     slice 36 4 out = ascii_codes "data" /\
     le_decode (slice 40 4 out) = len mod 2 ^ 32 /\
     forall (c : nat) (data : list float) (f : nat) (x : float),
       AudioBuffer.channelData buffer !! c = Some data -> data !! f = Some x ->
       int16_decode (slice (44 + slot nch (Z.of_nat f) (Z.of_nat c) 0) 2 out) = pcm16 x).
Proof.
  intros Hwf nch sr len. split; [apply audioBufferToWav_RangeError|]. intros Halloc.
  destruct (audioBufferToWav_layout host buffer Hwf Halloc) as (D & Hrun & HlenD & Hslots).
  fold nch in Hrun, HlenD, Hslots. fold len in Hrun, HlenD. fold sr in Hrun.
  destruct (wf_sizes host buffer Hwf Halloc) as (Bn & Bl0 & Bl). fold nch in Bn. fold len in Bl0, Bl.
  exists (wav_header nch len sr ++ D). split; [exact Hrun|]. split.
  { rewrite length_app, wav_header_length. lia. }
  destruct (wav_header_fields nch len sr D Bn Bl0 Bl)
    as (F1 & F2 & F3 & F4 & F5 & F6 & F7 & F8 & F9 & F10 & F11 & F12 & F13).
  do 7 (split; [assumption|]). split; [exact F8|].
  split. { intros r Hsr Hr. rewrite F8, Hsr. apply ToUint32_of_Z, Hr. }
  split; [exact F9|]. do 4 (split; [assumption|]).
  intros c data f x Hc Hx. destruct (Hslots c data f x Hc Hx) as [Hb0 Hb1].
  apply sample_slot_decode; [reflexivity|assumption..|].
  destruct Hwf as [Hn _]. fold nch in Hn. lia.
Qed.

Lemma wav_container_layout_small :
  AudioBuffer.wf small_buffer /\
  exists out : bytes,
    audioBufferToWav reliable small_buffer = Ok out /\ Z.of_nat (length out) = 52 /\
    le_decode (slice 22 2 out) = 2 /\ le_decode (slice 24 4 out) = 44100.
Proof.
  split; [exact small_buffer_wf|].
  destruct (wav_container_layout reliable small_buffer small_buffer_wf) as [_ Hok].
  destruct (Hok eq_refl)
    as (out & Hrun & Hlen & _ & _ & _ & _ & _ & _ & Hch & _ & Hrate & _).
  exists out. split; [exact Hrun|]. split; [exact Hlen|]. split; [exact Hch|].
  apply (Hrate 44100 eq_refl). split; reflexivity.
Defined.

Lemma small_buffer_samples : AudioBuffer.float32_samples small_buffer.
Proof. repeat constructor. Qed.

Lemma quad_buffer_wf : AudioBuffer.wf quad_buffer.
Proof.
  split; [reflexivity|]. split; [|split; [split; [discriminate|reflexivity]|reflexivity]].
  apply Forall_replicate. rewrite length_replicate.
  change (AudioBuffer.length quad_buffer) with 268435456. lia.
Qed.

Lemma quad_buffer_samples : AudioBuffer.float32_samples quad_buffer.
Proof. apply Forall_replicate, Forall_replicate. reflexivity. Qed.

(** C2, as stated, fails: encoding can fail for a structurally valid
    buffer.  Where array buffers hold fewer than 2^31 bytes, the 2^31 + 44
    bytes that four channels of 2^28 frames need cannot be created, and
    line 141 throws a [RangeError]. *)
Lemma encoding_can_fail :
  ~ (forall (host : Host) (buffer : AudioBuffer.t),
       AudioBuffer.wf buffer -> AudioBuffer.float32_samples buffer ->
       exists out : bytes, audioBufferToWav host buffer = Ok out).
Proof.
  intros Hall.
  destruct (Hall two_gigabytes quad_buffer quad_buffer_wf quad_buffer_samples) as (out & Hrun).
  rewrite audioBufferToWav_RangeError in Hrun; [discriminate|].
  change (AudioBuffer.length quad_buffer) with 268435456.
  change (AudioBuffer.numberOfChannels quad_buffer) with 4.
  reflexivity.
Qed.

(** C2, as the code has it.  Encoding fails only when the array buffer of
    line 141 cannot be created; the sample loop never fails.  In the
    output, the 16-bit slot of every sample [x] of the buffer holds: the
    sample clamped to [-1, 1] (a sample already inside is kept), scaled by
    32768 when negative and by 32767 otherwise, and truncated; the result
    lies in [-32768, 32767], so the 16-bit conversion stores it unchanged.
    NaN is not clamped and is stored as 0.  The samples 1, -1 and 0 are
    stored as 32767, -32768 and 0. *)
Theorem sample_quantization (host : Host) (buffer : AudioBuffer.t) :
  AudioBuffer.wf buffer -> AudioBuffer.float32_samples buffer ->
  let nch := AudioBuffer.numberOfChannels buffer in
  let len := AudioBuffer.length buffer * nch * 2 in
  (allocates host (44 + len) = false -> audioBufferToWav host buffer = Throw RangeError) /\
  (allocates host (44 + len) = true ->
   exists out : bytes,
     audioBufferToWav host buffer = Ok out /\
     forall (c : nat) (data : list float) (f : nat) (x : float),
       AudioBuffer.channelData buffer !! c = Some data -> data !! f = Some x ->
       let sample := clamp_sample x in
       let stored := int16_decode (slice (44 + slot nch (Z.of_nat f) (Z.of_nat c) 0) 2 out) in
       ((is_nan x = true /\ stored = 0) \/
        (is_nan x = false /\ is_nan sample = false /\
         lt (of_Z 1) sample = false /\ lt sample (of_Z (-1)) = false /\
         (lt x (of_Z (-1)) = false -> lt (of_Z 1) x = false -> sample = x) /\
         stored = truncate (if lt sample (of_Z 0) then mul sample (of_Z 32768)
                            else mul sample (of_Z 32767)) /\
         -32768 <= stored <= 32767)) /\
       (x = of_Z 1 -> stored = 32767) /\
       (x = of_Z (-1) -> stored = -32768) /\
       (x = zero -> stored = 0)).
Proof.
  intros Hwf Hsamples nch len. split; [apply audioBufferToWav_RangeError|]. intros Halloc.
  destruct (audioBufferToWav_layout host buffer Hwf Halloc) as (D & Hrun & HlenD & Hslots).
  fold nch in Hrun, HlenD, Hslots. fold len in Hrun, HlenD.
  eexists. split; [exact Hrun|].
  intros c data f x Hc Hx sample stored.
  assert (Hstored : stored = pcm16 x).
  { destruct (Hslots c data f x Hc Hx) as [Hb0 Hb1]. unfold stored.
    apply sample_slot_decode; [reflexivity|assumption..|].
    destruct Hwf as [Hn _]. fold nch in Hn. lia. }
  assert (Hr : float32_representable x = true).
  { unfold AudioBuffer.float32_samples in Hsamples.
    pose proof (Forall_lookup_1 _ _ _ _ Hsamples Hc) as Hdata.
    exact (Forall_lookup_1 _ _ _ _ Hdata Hx). }
  rewrite Hstored. split; [|repeat split; intros ->; reflexivity].
  destruct (is_nan x) eqn:Hn.
  - left. split; [reflexivity|]. destruct x; try discriminate. reflexivity.
  - right. split; [reflexivity|].
    destruct (clamp_sample_range x Hn) as (Hcl & Hhi & Hlo).
    destruct (scaled_sample_within x Hr Hn) as (_ & _ & Ht).
    repeat split; try assumption.
    + intros H1 H2. apply clamp_sample_inside; assumption.
    + unfold pcm16. rewrite ToInt16_within by exact Ht. reflexivity.
    + unfold pcm16. rewrite ToInt16_within by exact Ht. lia.
    + unfold pcm16. rewrite ToInt16_within by exact Ht. lia.
Qed.

Lemma sample_quantization_half :
  AudioBuffer.wf small_buffer /\ AudioBuffer.float32_samples small_buffer /\
  exists out : bytes,
    audioBufferToWav reliable small_buffer = Ok out /\
    int16_decode (slice 44 2 out) = 32767 /\
    int16_decode (slice 48 2 out) = -32768.
Proof.
  split; [exact small_buffer_wf|]. split; [exact small_buffer_samples|].
  destruct (sample_quantization reliable small_buffer small_buffer_wf small_buffer_samples)
    as [_ Hok].
  destruct (Hok eq_refl) as (out & Hrun & Hslots).
  exists out. split; [exact Hrun|]. split.
  - exact (proj1 (proj2 (Hslots 0%nat _ 0%nat (of_Z 1) eq_refl eq_refl)) eq_refl).
  - exact (proj1 (proj2 (proj2 (Hslots 0%nat _ 1%nat (of_Z (-1)) eq_refl eq_refl))) eq_refl).
Defined.

Lemma a4_frames : ToUint32 (frame_count a4_midi context_44100) = 44100.
Proof. vm_compute. reflexivity. Qed.

Lemma drop_header (nch len : Z) (sr : float) (D : bytes) :
  drop 44 (wav_header nch len sr ++ D) = D.
Proof. apply (drop_app_length (wav_header nch len sr) D). Qed.

Lemma conversion_failure_None (host : Host) (frames : Z) :
  conversion_failure host frames = None ->
  rendering_failure host frames = None /\ allocates host (44 + frames * 2 * 2) = true.
Proof.
  unfold conversion_failure. destruct (rendering_failure host frames); [discriminate|].
  destruct (allocates host (44 + frames * 2 * 2)); [split; reflexivity|discriminate].
Qed.

(** The fields of the header of a two-channel file of [frames] frames. *)
Lemma stereo_header_fields (frames : Z) (sr : float) (D : bytes) :
  0 <= frames < 2 ^ 32 ->
  let out := wav_header 2 (frames * 2 * 2) sr ++ D in
  le_decode (slice 20 2 out) = 1 /\
  le_decode (slice 22 2 out) = 2 /\
  le_decode (slice 24 4 out) = ToUint32 sr /\
  le_decode (slice 28 4 out) = ToUint32 (byte_rate sr 2) /\
  le_decode (slice 32 2 out) = 4 /\
  le_decode (slice 34 2 out) = 16 /\
  le_decode (slice 4 4 out) = (36 + frames * 4) mod 2 ^ 32 /\
  le_decode (slice 40 4 out) = (frames * 4) mod 2 ^ 32.
Proof.
  intros Hf out. change (2 ^ 32) with 4294967296 in Hf.
  destruct (wav_header_fields 2 (frames * 2 * 2) sr D)
    as (_ & F2 & _ & _ & _ & F6 & F7 & F8 & F9 & F10 & F11 & _ & F13);
    [split; [discriminate|reflexivity]|lia|change (2 ^ 53) with 9007199254740992; lia|].
  fold out in F2, F6, F7, F8, F9, F10, F11, F13.
  rewrite F2, F6, F7, F8, F9, F10, F11, F13.
  replace (frames * 2 * 2) with (frames * 4) by lia. repeat split.
Qed.

(** C3, as stated, fails: on no host does the file rendered for the A4
    scenario announce one channel. *)
Lemma a4_scenario_not_mono :
  ~ (exists (host : Host) (buf : AudioBuffer.t) (out : bytes),
       renderedBuffer host context_44100 a4_midi None = Ok buf /\
       AudioBuffer.length buf = 44100 /\
       processMidiWithSoundfont host (app_of a4_midi None) = Ok out /\
       le_decode (slice 22 2 out) = 1).
Proof.
  intros (host & buf & out & _ & _ & Hrun & Hch).
  unfold app_of in Hrun. rewrite processMidiWithSoundfont_set, a4_frames in Hrun.
  cbn [Z.eqb] in Hrun. destruct (conversion_failure host 44100); [discriminate|].
  apply Ok_inj in Hrun. subst out.
  pose proof (stereo_header_fields 44100 (AudioContext.sampleRate context_44100)
                (replicate (Z.to_nat (44100 * 2 * 2)) 0)
                ltac:(split; [discriminate|reflexivity])) as (_ & F & _).
  rewrite F in Hch. discriminate.
Qed.

(** C3, as the code has it.  On every host on which the module is added,
    the node constructed, 44100 frames rendered and the array buffer
    created, the A4 scenario rendered at 44100 Hz gives a buffer of
    exactly 44100 frames; it has two channels, so header bytes 22-23 hold
    2, and every sample of the buffer and every data byte of the file is
    zero: no oscillator runs. *)
Theorem a4_scenario_renders_silence (host : Host) :
  conversion_failure host 44100 = None ->
  exists (buf : AudioBuffer.t) (out : bytes),
    renderedBuffer host context_44100 a4_midi None = Ok buf /\
    AudioBuffer.length buf = 44100 /\
    AudioBuffer.numberOfChannels buf = 2 /\
    Forall (Forall (fun x => x = zero)) (AudioBuffer.channelData buf) /\
    Forall (fun data => Z.of_nat (length data) = 44100) (AudioBuffer.channelData buf) /\
    processMidiWithSoundfont host (app_of a4_midi None) = Ok out /\
    le_decode (slice 22 2 out) = 2 /\
    Z.of_nat (length out) = 44 + 44100 * 2 * 2 /\
    Forall (fun b => b = 0) (drop 44 out).
Proof.
  intros Hhost. destruct (conversion_failure_None host 44100 Hhost) as [Hrender _].
  eexists _, _.
  split. { rewrite renderedBuffer_set, a4_frames, Hrender. reflexivity. }
  split; [reflexivity|]. split; [reflexivity|].
  rewrite rendered_channels_silent.
  split. { apply Forall_replicate, Forall_replicate. reflexivity. }
  split. { apply Forall_replicate. rewrite length_replicate. lia. }
  split. { unfold app_of. rewrite processMidiWithSoundfont_set, a4_frames, Hhost. reflexivity. }
  split. { apply (stereo_header_fields 44100). split; [discriminate|reflexivity]. }
  split. { rewrite length_app, wav_header_length, length_replicate. lia. }
  rewrite drop_header. apply Forall_replicate. reflexivity.
Qed.

Lemma a4_scenario_renders_silence_reliable :
  exists (buf : AudioBuffer.t) (out : bytes),
    renderedBuffer reliable context_44100 a4_midi None = Ok buf /\
    AudioBuffer.length buf = 44100 /\
    AudioBuffer.numberOfChannels buf = 2 /\
    Forall (Forall (fun x => x = zero)) (AudioBuffer.channelData buf) /\
    processMidiWithSoundfont reliable (app_of a4_midi None) = Ok out /\
    le_decode (slice 22 2 out) = 2 /\
    Z.of_nat (length out) = 44 + 44100 * 2 * 2 /\
    Forall (fun b => b = 0) (drop 44 out).
Proof.
  destruct (a4_scenario_renders_silence reliable eq_refl)
    as (buf & out & H1 & H2 & H3 & H4 & _ & H6 & H7 & H8 & H9).
  exists buf, out. repeat (split; [assumption|]). assumption.
Defined.



Lemma unsorted_midi_invariant : duration_invariant unsorted_midi.
Proof. reflexivity. Qed.

Lemma sorted_midi_invariant : duration_invariant sorted_midi.
Proof. reflexivity. Qed.


(** Without events the spec's invariant makes the duration -Infinity. *)
Lemma duration_invariant_empty (midi : Midi.t) :
  events midi = [] -> duration_invariant midi -> Midi.duration midi = S754_infinity true.
Proof. unfold duration_invariant. intros -> ->. reflexivity. Qed.

Lemma frame_count_minus_infinity (midi : Midi.t) (ctx : AudioContext.t) :
  Midi.duration midi = S754_infinity true -> ToUint32 (frame_count midi ctx) = 0.
Proof.
  intros Hd. unfold frame_count. rewrite Hd.
  destruct (AudioContext.sampleRate ctx) as [s|s| |s m e]; try reflexivity;
    destruct s; reflexivity.
Qed.

(** C5, as stated, fails: for a timeline without events the error is
    not an [EmptyTimeline] error, on any host. *)
Lemma empty_timeline_error_name :
  ~ (exists (host : Host) (e : exn),
       processMidiWithSoundfont host (app_of empty_midi None) = Throw e /\
       exn_name e = "EmptyTimeline"%string).
Proof.
  intros (host & e & Hrun & Hname). unfold app_of in Hrun.
  rewrite processMidiWithSoundfont_set, (frame_count_zero empty_midi context_44100 eq_refl) in Hrun.
  cbn [Z.eqb] in Hrun. injection Hrun as <-. discriminate.
Qed.

(** C5, as the code has it.  A timeline without events has the duration 0
    (what the library reports when its tracks hold no note) or the
    maximum over no events, -Infinity (the spec's invariant, and what the
    library reports without tracks).  Either way the frame count converts
    to zero and the constructor of the offline context refuses it with
    [NotSupportedError], on every host and at every sample rate, before
    the module is added, before any node exists and before anything is
    rendered or encoded. *)
Theorem empty_timeline_not_supported
    (host : Host) (ctx : AudioContext.t) (midi : Midi.t) (soundfont : option bytes) :
  events midi = [] ->
  Midi.duration midi = zero \/ duration_invariant midi ->
  renderedBuffer host ctx midi soundfont = Throw (DOMException "NotSupportedError") /\
  processMidiWithSoundfont host
    {| audioContextRef := Some ctx; midiDataRef := Some midi; soundfontDataRef := soundfont |}
  = Throw (DOMException "NotSupportedError").
Proof.
  intros He Hd.
  assert (Hz : ToUint32 (frame_count midi ctx) = 0).
  { destruct Hd as [Hd|Hd].
    - apply frame_count_zero, Hd.
    - apply frame_count_minus_infinity, duration_invariant_empty; assumption. }
  rewrite renderedBuffer_set, processMidiWithSoundfont_set, Hz.
  split; reflexivity.
Qed.

Lemma empty_timeline_not_supported_example :
  events empty_midi = [] /\ events trackless_midi = [] /\ duration_invariant trackless_midi /\
  processMidiWithSoundfont reliable (app_of empty_midi None)
  = Throw (DOMException "NotSupportedError") /\
  processMidiWithSoundfont reliable (app_of trackless_midi None)
  = Throw (DOMException "NotSupportedError").
Proof.
  split; [reflexivity|]. split; [reflexivity|]. split; [reflexivity|]. split.
  - exact (proj2 (empty_timeline_not_supported reliable context_44100 empty_midi None
                    eq_refl (or_introl eq_refl))).
  - exact (proj2 (empty_timeline_not_supported reliable context_44100 trackless_midi None
                    eq_refl (or_intror eq_refl))).
Defined.

Lemma mute_frames : ToUint32 (frame_count mute_midi context_44100) = 44100.
Proof. vm_compute. reflexivity. Qed.

(** C6, as stated, fails: where no platform call fails, a note of
    velocity 0 is not rejected at all. *)
Lemma mute_note_not_rejected :
  ~ (exists e : exn,
       processMidiWithSoundfont reliable (app_of mute_midi None) = Throw e /\
       exn_name e = "InvalidNote"%string).
Proof.
  intros (e & Hrun & _). unfold app_of in Hrun.
  rewrite processMidiWithSoundfont_set, mute_frames in Hrun. discriminate.
Qed.

(** C6, as the code has it.  No note is rejected for its velocity: each
    note is posted with the velocity it carries, whatever it is, and on
    every host the outcome of the conversion is the same for every choice
    of velocities. *)
Theorem velocity_is_ignored
    (host : Host) (ctx : AudioContext.t) (midi : Midi.t) (soundfont : option bytes)
    (f : Note.t -> float) :
  port (scheduled_node soundfont (with_velocities f midi))
  = match soundfont with Some data => [loadSoundfont data] | None => [] end
    ++ flat_map (fun note => [noteOn (Note.midi note) (f note) (Note.time note);
                              noteOff (Note.midi note) (add (Note.time note) (Note.duration note))])
         (events midi) /\
  processMidiWithSoundfont host
    {| audioContextRef := Some ctx; midiDataRef := Some (with_velocities f midi);
       soundfontDataRef := soundfont |}
  = processMidiWithSoundfont host
    {| audioContextRef := Some ctx; midiDataRef := Some midi; soundfontDataRef := soundfont |}.
Proof.
  split.
  - rewrite scheduled_node_port, events_with_velocities. f_equal.
    induction (events midi) as [|ev evs IH]; [reflexivity|].
    cbn [map flat_map]. rewrite IH. reflexivity.
  - rewrite !processMidiWithSoundfont_set. reflexivity.
Qed.

Lemma ToUint32_small (x : float) : 0 <= truncate x < 2 ^ 32 -> ToUint32 x = truncate x.
Proof. intros H. unfold ToUint32. apply Z.mod_small, H. Qed.

(** C7, as stated, fails: a one-second note starting at 100000 s ends at
    100001 s, and 100001 * 44100 = 4410044100 frames do not fit the
    [unsigned long] the offline context takes; on no host has the
    rendered buffer that many frames (where it is rendered, it has
    4410044100 - 2^32 = 115076804). *)
Lemma distant_note_wraps_frame_count :
  ~ (exists (host : Host) (buf : AudioBuffer.t),
       renderedBuffer host context_44100 distant_midi None = Ok buf /\
       AudioBuffer.length buf
       = truncate (Math_ceil (mul (max_end_time (events distant_midi))
                                  (AudioContext.sampleRate context_44100)))).
Proof.
  intros (host & buf & Hrun & Hlen).
  rewrite renderedBuffer_set in Hrun.
  replace (ToUint32 (frame_count distant_midi context_44100)) with 115076804 in Hrun
    by (vm_compute; reflexivity).
  cbn [Z.eqb] in Hrun. destruct (rendering_failure host 115076804); [discriminate|].
  apply Ok_inj in Hrun. subst buf.
  replace (truncate (Math_ceil (mul (max_end_time (events distant_midi))
                                    (AudioContext.sampleRate context_44100))))
    with 4410044100 in Hlen by (vm_compute; reflexivity).
  cbn [render_graph AudioBuffer.length OfflineAudioContext.length] in Hlen. discriminate.
Qed.

(** C7, as the code has it.  For a timeline with at least one event, when
    the ceiling of maxEndTime * sampleRate is at least 1 and below 2^32,
    on every host that renders that many frames the rendered buffer has
    exactly that many frames in each channel, and so has the buffer
    rendered for any reordering of the events. *)
Theorem rendered_length_is_ceiling
    (host : Host) (ctx : AudioContext.t) (midi midi' : Midi.t)
    (soundfont soundfont' : option bytes) :
  events midi <> [] -> duration_invariant midi ->
  events midi ≡ₚ events midi' -> duration_invariant midi' ->
  let n := truncate (Math_ceil (mul (max_end_time (events midi)) (AudioContext.sampleRate ctx))) in
  1 <= n < 2 ^ 32 ->
  rendering_failure host n = None ->
  exists buf buf' : AudioBuffer.t,
    renderedBuffer host ctx midi soundfont = Ok buf /\
    AudioBuffer.length buf = n /\
    Forall (fun data => Z.of_nat (length data) = n) (AudioBuffer.channelData buf) /\
    renderedBuffer host ctx midi' soundfont' = Ok buf' /\
    AudioBuffer.length buf' = n.
Proof.
  intros He Hd Hp Hd' n Hn Hhost.
  assert (Hf : ToUint32 (frame_count midi ctx) = n).
  { unfold frame_count. rewrite Hd. apply ToUint32_small. fold n. lia. }
  assert (Hf' : ToUint32 (frame_count midi' ctx) = n).
  { rewrite <- Hf. unfold frame_count. rewrite (duration_perm midi midi' Hp Hd Hd'). reflexivity. }
  assert (Hnz : (n =? 0) = false) by (apply Z.eqb_neq; lia).
  eexists _, _.
  split. { rewrite renderedBuffer_set, Hf, Hnz, Hhost. reflexivity. }
  split; [reflexivity|].
  split. { rewrite rendered_channels_silent. apply Forall_replicate.
           rewrite length_replicate. lia. }
  split. { rewrite renderedBuffer_set, Hf', Hnz, Hhost. reflexivity. }
  reflexivity.
Qed.

Lemma unsorted_midi_events : events unsorted_midi <> [].
Proof. discriminate. Qed.

Lemma rendered_length_is_ceiling_swap :
  events unsorted_midi <> [] /\
  exists buf buf' : AudioBuffer.t,
    renderedBuffer reliable context_44100 unsorted_midi None = Ok buf /\
    AudioBuffer.length buf = 88200 /\
    renderedBuffer reliable context_44100 sorted_midi None = Ok buf' /\
    AudioBuffer.length buf' = 88200.
Proof.
  split; [exact unsorted_midi_events|].
  destruct (rendered_length_is_ceiling reliable context_44100 unsorted_midi sorted_midi None None
              unsorted_midi_events unsorted_midi_invariant (perm_swap _ _ _) sorted_midi_invariant
              ltac:(vm_compute; split; [discriminate|reflexivity]) eq_refl)
    as (buf & buf' & H1 & H2 & _ & H3 & H4).
  exists buf, buf'. split; [exact H1|]. split; [exact H2|]. split; [exact H3|exact H4].
Defined.

Lemma fractional_stereo_wf : AudioBuffer.wf fractional_stereo.
Proof.
  split; [reflexivity|]. split; [repeat constructor|]. split; [|reflexivity].
  split; [discriminate|reflexivity].
Qed.

(** C8, as stated, fails: for two channels at 22050.5 Hz the header does
    not give the sample rate back; bytes 24-27 read as 22050. *)
Lemma fractional_rate_not_recovered :
  ~ (exists out : bytes,
       audioBufferToWav reliable fractional_stereo = Ok out /\
       of_Z (le_decode (slice 24 4 out)) = AudioBuffer.sampleRate fractional_stereo /\
       le_decode (slice 22 2 out) = AudioBuffer.numberOfChannels fractional_stereo /\
       le_decode (slice 40 4 out)
       = AudioBuffer.length fractional_stereo * AudioBuffer.numberOfChannels fractional_stereo * 2).
Proof.
  intros (out & Hrun & Hrate & _). vm_compute in Hrun. apply Ok_inj in Hrun. subst out.
  vm_compute in Hrate. discriminate.
Qed.

(** C8, as the code has it.  When the array buffer can be created, the
    sample rate is an integer below 2^32, the data length is below 2^32
    and the channel count is below 2^16, bytes 24-27, 22-23 and 40-43 of
    the encoded container read back as exactly the sample rate, the
    channel count and the data length of the buffer. *)
Theorem header_round_trip (host : Host) (buffer : AudioBuffer.t) (rate : Z) :
  AudioBuffer.wf buffer ->
  let nch := AudioBuffer.numberOfChannels buffer in
  let len := AudioBuffer.length buffer * nch * 2 in
  allocates host (44 + len) = true ->
  AudioBuffer.sampleRate buffer = of_Z rate ->
  0 <= rate < 2 ^ 32 -> nch < 2 ^ 16 -> len < 2 ^ 32 ->
  exists out : bytes,
    audioBufferToWav host buffer = Ok out /\
    le_decode (slice 24 4 out) = rate /\
    of_Z (le_decode (slice 24 4 out)) = AudioBuffer.sampleRate buffer /\
    le_decode (slice 22 2 out) = nch /\
    le_decode (slice 40 4 out) = len.
Proof.
  intros Hwf nch len Halloc Hsr Hrate Hnch Hlen.
  destruct (audioBufferToWav_layout host buffer Hwf Halloc) as (D & Hrun & HlenD & _).
  fold nch in Hrun, HlenD. fold len in Hrun, HlenD.
  destruct (wf_sizes host buffer Hwf Halloc) as (Bn & Bl0 & Bl). fold nch in Bn. fold len in Bl0, Bl.
  destruct (wav_header_fields nch len (AudioBuffer.sampleRate buffer) D Bn Bl0 Bl)
    as (_ & _ & _ & _ & _ & _ & F7 & F8 & _ & _ & _ & _ & F13).
  eexists. split; [exact Hrun|].
  rewrite F7, F8, F13, Hsr.
  change (2 ^ 32) with 4294967296 in *. change (2 ^ 16) with 65536 in *.
  rewrite ToUint32_of_Z by (change (2 ^ 53) with 9007199254740992; lia).
  change (2 ^ 32) with 4294967296. change (2 ^ 16) with 65536.
  rewrite !Z.mod_small by lia. repeat split.
Qed.

Lemma header_round_trip_small :
  AudioBuffer.wf small_buffer /\
  exists out : bytes,
    audioBufferToWav reliable small_buffer = Ok out /\
    le_decode (slice 24 4 out) = 44100 /\
    le_decode (slice 22 2 out) = 2 /\
    le_decode (slice 40 4 out) = 8.
Proof.
  split; [exact small_buffer_wf|].
  destruct (header_round_trip reliable small_buffer 44100 small_buffer_wf eq_refl eq_refl
              ltac:(split; [discriminate|reflexivity]) eq_refl eq_refl)
    as (out & Hrun & H1 & _ & H2 & H3).
  exists out. split; [exact Hrun|]. split; [exact H1|]. split; [exact H2|exact H3].
Defined.

(** C9, as stated, fails: no sample is scaled to a Number outside the
    signed 16-bit range. *)
Lemma no_sample_leaves_int16 :
  ~ (exists x : float,
       float32_representable x = true /\
       outside_int16 (scale_sample (clamp_sample x)) = true).
Proof.
  intros (x & Hr & Hout). unfold outside_int16 in Hout.
  destruct (is_nan x) eqn:Hn.
  - destruct x; try discriminate.
  - destruct (scaled_sample_within x Hr Hn) as (Hhi & Hlo & _).
    rewrite Hhi, Hlo in Hout. discriminate.
Qed.

(** C9, as the code has it.  The sample is clamped before it is scaled
    (line 171 precedes line 172): the clamped sample is neither above 1
    nor below -1, and the scaled result is neither above 32767 nor below
    -32768; the sample 1 is scaled to exactly 32767. *)
Theorem clamp_precedes_scaling (x : float) :
  float32_representable x = true ->
  lt (of_Z 1) (clamp_sample x) = false /\
  lt (clamp_sample x) (of_Z (-1)) = false /\
  outside_int16 (scale_sample (clamp_sample x)) = false /\
  scale_sample (clamp_sample (of_Z 1)) = of_Z 32767.
Proof.
  intros Hr. destruct (is_nan x) eqn:Hn.
  - destruct x; try discriminate. repeat split.
  - destruct (clamp_sample_range x Hn) as (_ & Hhi & Hlo).
    destruct (scaled_sample_within x Hr Hn) as (Hhi' & Hlo' & _).
    unfold outside_int16. rewrite Hhi', Hlo'. repeat split; assumption.
Qed.

Lemma clamp_precedes_scaling_loud :
  float32_representable (of_Z 5) = true /\
  clamp_sample (of_Z 5) = of_Z 1 /\
  outside_int16 (scale_sample (clamp_sample (of_Z 5))) = false.
Proof.
  split; [reflexivity|]. split; [reflexivity|].
  exact (proj1 (proj2 (proj2 (clamp_precedes_scaling (of_Z 5) eq_refl)))).
Defined.

(** C10.  Once both references are set, whatever the timeline holds and
    whatever instrument bank was loaded, on every host: every buffer that
    is rendered has all its samples zero; and either the frame count
    converts to zero and the call fails, or a platform call fails and the
    call fails with its exception, or every byte of the encoded file
    after the 44-byte header is zero. *)
Theorem rendered_wav_is_silent (host : Host) (app : App) (ctx : AudioContext.t) (midi : Midi.t) :
  audioContextRef app = Some ctx -> midiDataRef app = Some midi ->
  let frames := ToUint32 (frame_count midi ctx) in
  (forall buf : AudioBuffer.t,
     renderedBuffer host ctx midi (soundfontDataRef app) = Ok buf ->
     Forall (Forall (fun x => x = zero)) (AudioBuffer.channelData buf)) /\
  ((frames = 0 /\
    processMidiWithSoundfont host app = Throw (DOMException "NotSupportedError")) \/
   (frames <> 0 /\
    exists e : exn,
      conversion_failure host frames = Some e /\ processMidiWithSoundfont host app = Throw e) \/
   (frames <> 0 /\ conversion_failure host frames = None /\
    exists (buf : AudioBuffer.t) (out : bytes),
      renderedBuffer host ctx midi (soundfontDataRef app) = Ok buf /\
      Forall (Forall (fun x => x = zero)) (AudioBuffer.channelData buf) /\
      processMidiWithSoundfont host app = Ok out /\
      Z.of_nat (length out) = 44 + frames * 2 * 2 /\
      Forall (fun b => b = 0) (drop 44 out))).
Proof.
  intros Hctx Hmidi frames.
  assert (Happ : app = {| audioContextRef := Some ctx; midiDataRef := Some midi;
                          soundfontDataRef := soundfontDataRef app |}).
  { destruct app as [a m s]. cbn in *. subst. reflexivity. }
  pose proof (ToUint32_range (frame_count midi ctx)) as Hr. fold frames in Hr.
  pose proof (processMidiWithSoundfont_set host ctx midi (soundfontDataRef app)) as Hrun.
  cbv zeta in Hrun. fold frames in Hrun. rewrite <- Happ in Hrun.
  pose proof (renderedBuffer_set host ctx midi (soundfontDataRef app)) as Hbuf.
  cbv zeta in Hbuf. fold frames in Hbuf.
  split.
  { intros buf Hok. rewrite Hbuf in Hok.
    destruct (frames =? 0); [discriminate|].
    destruct (rendering_failure host frames); [discriminate|].
    apply Ok_inj in Hok. subst buf. rewrite rendered_channels_silent.
    apply Forall_replicate, Forall_replicate. reflexivity. }
  destruct (Z.eqb_spec frames 0) as [Hz|Hz].
  - left. split; assumption.
  - right. destruct (conversion_failure host frames) as [e|] eqn:Hhost.
    + left. split; [assumption|]. exists e. split; [reflexivity|assumption].
    + right. split; [assumption|]. split; [reflexivity|].
      destruct (conversion_failure_None host frames Hhost) as [Hrender _].
      rewrite Hrender in Hbuf. eexists _, _.
      split; [exact Hbuf|].
      split. { rewrite rendered_channels_silent. apply Forall_replicate, Forall_replicate.
               reflexivity. }
      split; [exact Hrun|].
      split. { rewrite length_app, wav_header_length, length_replicate. lia. }
      rewrite drop_header. apply Forall_replicate. reflexivity.
Qed.

Lemma rendered_wav_is_silent_a4 :
  exists out : bytes,
    processMidiWithSoundfont reliable (app_of a4_midi (Some [1; 2; 3])) = Ok out /\
    Forall (fun b => b = 0) (drop 44 out).
Proof.
  destruct (rendered_wav_is_silent reliable (app_of a4_midi (Some [1; 2; 3])) context_44100
              a4_midi eq_refl eq_refl)
    as [_ [[Hz _]|[[_ (e & He & _)]|[_ [_ (buf & out & _ & _ & Hrun & _ & Hzero)]]]]].
  - exfalso. rewrite a4_frames in Hz. discriminate.
  - exfalso. rewrite a4_frames in He. discriminate.
  - exists out. split; [exact Hrun|exact Hzero].
Defined.

(** * Further properties of the code

    Beyond the statements above: the quantizer, the header writer, the
    renderer as a whole, and the component that drives them. *)

(** ** More on the quantizer of lines 171-172 *)

Lemma lt_one_finite_sign (s : bool) (m : positive) (e : Z) :
  lt (of_Z 1) (S754_finite s m e) = true -> s = false.
Proof. destruct s; [discriminate|reflexivity]. Qed.

Lemma lt_finite_minus_one_sign (s : bool) (m : positive) (e : Z) :
  lt (S754_finite s m e) (of_Z (-1)) = true -> s = true.
Proof. destruct s; [reflexivity|discriminate]. Qed.

(** X1. Saturation: a sample above 1 (+Infinity included) is stored as
    32767 and a sample below -1 (-Infinity included) as -32768; nothing
    wraps around. *)
Theorem pcm16_saturates (x : float) :
  (lt (of_Z 1) x = true -> pcm16 x = 32767) /\
  (lt x (of_Z (-1)) = true -> pcm16 x = -32768).
Proof.
  split; intros Hx.
  - destruct x as [s|s| |s m e]; try (destruct s; discriminate); try discriminate.
    + destruct s; [discriminate|reflexivity].
    + pose proof (lt_one_finite_sign s m e Hx) as ->.
      unfold pcm16. rewrite clamp_sample_finite, (lt_asym _ _ Hx). reflexivity.
  - destruct x as [s|s| |s m e]; try (destruct s; discriminate); try discriminate.
    + destruct s; [reflexivity|discriminate].
    + pose proof (lt_finite_minus_one_sign s m e Hx) as ->.
      unfold pcm16. rewrite clamp_sample_finite, (lt_asym _ _ Hx). reflexivity.
Qed.

(** X2. Clamping a sample beforehand does not change what is stored for it. *)
Theorem pcm16_of_clamped (x : float) : pcm16 (clamp_sample x) = pcm16 x.
Proof.
  unfold pcm16. do 2 f_equal.
  destruct x as [s|s| |s m e]; try (destruct s; reflexivity); try reflexivity.
  rewrite (clamp_sample_finite s m e). destruct s.
  - destruct (lt (of_Z (-1)) (S754_finite true m e)) eqn:Hlt; [|reflexivity].
    rewrite clamp_sample_finite, Hlt. reflexivity.
  - destruct (lt (S754_finite false m e) (of_Z 1)) eqn:Hlt; [|reflexivity].
    rewrite clamp_sample_finite, Hlt. reflexivity.
Qed.

(** Inside (-1, 1) the binary64 product of line 172 is exact, and its
    integer part is the quotient of the scaled significand. *)
Lemma pcm16_inside (s : bool) (m : positive) (e : Z) :
  let x := S754_finite s m e in
  float32_representable x = true ->
  lt (of_Z (-1)) x = true -> lt x (of_Z 1) = true ->
  pcm16 x = if s then - (Z.pos m * 32768 / 2 ^ (- e)) else Z.pos m * 32767 / 2 ^ (- e).
Proof.
  intros x Hr Hlo Hhi. unfold x in *.
  destruct (float32_representable_finite s m e Hr) as [Hv Hm].
  assert (He : e <= -53).
  { destruct s.
    - apply (below_one_exponent true m e Hv), lt_minus_one_finite, Hlo.
    - apply (below_one_exponent false m e Hv), lt_finite_one, Hhi. }
  destruct (scaled_sample_within _ Hr eq_refl) as (_ & _ & Ht).
  unfold pcm16 in *. rewrite ToInt16_within by exact Ht. clear Ht.
  rewrite clamp_sample_finite.
  assert (Hcancel : forall (q : positive) (n ec C : Z) (mc : positive),
            0 <= n -> ec <= 0 -> e + ec + n <= 0 ->
            Z.pos mc = C * 2 ^ (- ec) -> Z.pos q * 2 ^ n = Z.pos m * Z.pos mc ->
            Z.pos q / 2 ^ (- (e + ec + n)) = Z.pos m * C / 2 ^ (- e)).
  { intros q n ec C mc Hn Hec Hev HC Hq.
    assert (0 < 2 ^ n) by (apply pow2_pos; lia).
    assert (0 < 2 ^ (- ec)) by (apply pow2_pos; lia).
    assert (0 < 2 ^ (- (e + ec + n))) by (apply pow2_pos; lia).
    assert (0 < 2 ^ (- e)) by (apply pow2_pos; lia).
    rewrite <- (Z.div_mul_cancel_r (Z.pos q) (2 ^ (- (e + ec + n))) (2 ^ n)) by lia.
    rewrite <- (Z.div_mul_cancel_r (Z.pos m * C) (2 ^ (- e)) (2 ^ (- ec))) by lia.
    f_equal.
    - rewrite Hq, HC. ring.
    - rewrite <- !Z.pow_add_r by lia. f_equal. lia. }
  destruct s.
  - rewrite Hlo, scale_sample_neg. revert Hlo. eval_of_Z. intros _.
    destruct (mul_const_exact true m e 4503599627370496 (-37) Hv Hm ltac:(lia))
      as (q & n & -> & Hn & Hq & _); [reflexivity|exists 32768; reflexivity|lia|].
    unfold truncate. destruct (Z.leb_spec 0 (e + -37 + n)); [lia|].
    f_equal. apply (Hcancel q n (-37) 32768 4503599627370496%positive); [lia|lia|lia|reflexivity|exact Hq].
  - rewrite Hhi, scale_sample_nonneg. revert Hhi. eval_of_Z. intros _.
    destruct (mul_const_exact false m e 9006924376834048 (-38) Hv Hm ltac:(lia))
      as (q & n & -> & Hn & Hq & _); [reflexivity|exists 65534; reflexivity|lia|].
    unfold truncate. destruct (Z.leb_spec 0 (e + -38 + n)); [lia|].
    apply (Hcancel q n (-38) 32767 9006924376834048%positive); [lia|lia|lia|reflexivity|exact Hq].
Qed.

(** A valid binary64 significand has at most 53 digits, and exactly 53
    above the least exponent. *)
Lemma valid_significand (s : bool) (m : positive) (e : Z) :
  valid_binary prec emax (S754_finite s m e) = true ->
  Z.pos m < 2 ^ 53 /\ -1074 <= e /\ (-1074 < e -> 2 ^ 52 <= Z.pos m).
Proof.
  intros Hv. apply valid_binary_finite in Hv as [Hcan _].
  pose proof (digits2_pos_bounds m) as [Hl Hu].
  split; [|split; [lia|]].
  - assert (2 ^ Z.pos (digits2_pos m) <= 2 ^ 53) by (apply Z.pow_le_mono_r; lia). lia.
  - intros He. assert (Z.pos (digits2_pos m) = 53) by lia.
    replace (Z.pos (digits2_pos m) - 1) with 52 in Hl by lia. exact Hl.
Qed.

(** X3. Inside (-1, 1) the stored value is the exact product of the sample
    by 32767 (or by 32768 for a negative sample), truncated toward zero:
    the binary64 multiplication of line 172 rounds nothing away.  The end
    values 32767 and -32768 are not reached there. *)
Theorem pcm16_exact (s : bool) (m : positive) (e : Z) :
  let x := S754_finite s m e in
  float32_representable x = true ->
  lt (of_Z (-1)) x = true -> lt x (of_Z 1) = true ->
  pcm16 x = (if s then - (Z.pos m * 32768 / 2 ^ (- e)) else Z.pos m * 32767 / 2 ^ (- e)) /\
  -32767 <= pcm16 x <= 32766.
Proof.
  intros x Hr Hlo Hhi. unfold x in *.
  rewrite (pcm16_inside s m e Hr Hlo Hhi). split; [reflexivity|].
  destruct (float32_representable_finite s m e Hr) as [Hv _].
  destruct (valid_significand s m e Hv) as (Hm & _ & _).
  assert (He : e <= -53).
  { destruct s.
    - apply (below_one_exponent true m e Hv), lt_minus_one_finite, Hlo.
    - apply (below_one_exponent false m e Hv), lt_finite_one, Hhi. }
  assert (HP : 0 < 2 ^ (- e)) by (apply pow2_pos; lia).
  assert (HB : 2 ^ 53 <= 2 ^ (- e)) by (apply Z.pow_le_mono_r; lia).
  destruct s.
  - assert (0 <= Z.pos m * 32768 / 2 ^ (- e)) by (apply Z.div_pos; lia).
    assert (Z.pos m * 32768 / 2 ^ (- e) < 32768) by (apply Z.div_lt_upper_bound; lia).
    lia.
  - assert (0 <= Z.pos m * 32767 / 2 ^ (- e)) by (apply Z.div_pos; lia).
    assert (Z.pos m * 32767 / 2 ^ (- e) < 32767) by (apply Z.div_lt_upper_bound; lia).
    lia.
Qed.

Lemma pcm16_exact_half :
  float32_representable one_half = true /\
  pcm16 one_half = 4503599627370496 * 32767 / 2 ^ 53.
Proof.
  split; [reflexivity|].
  exact (proj1 (pcm16_exact false 4503599627370496 (-53) eq_refl eq_refl eq_refl)).
Defined.

Lemma pcm16_saturates_example : pcm16 (of_Z 5) = 32767 /\ pcm16 (S754_infinity true) = -32768.
Proof.
  split.
  - exact (proj1 (pcm16_saturates (of_Z 5)) eq_refl).
  - exact (proj2 (pcm16_saturates (S754_infinity true)) eq_refl).
Defined.

(** ** The quantizer preserves order *)

Lemma lt_pos_iff (m m' : positive) (e e' : Z) :
  lt (S754_finite false m e) (S754_finite false m' e') = true <->
  e < e' \/ (e = e' /\ Z.pos m < Z.pos m').
Proof.
  unfold lt, SFltb, SFcompare. rewrite Pos.compare_cont_spec. cbn [Pos.switch_Eq].
  rewrite Pos2Z.inj_compare.
  destruct (Z.compare_spec e e'); [destruct (Z.compare_spec (Z.pos m) (Z.pos m'))| |];
    split; intros; try discriminate; try reflexivity; lia.
Qed.

Lemma lt_neg_iff (m m' : positive) (e e' : Z) :
  lt (S754_finite true m e) (S754_finite true m' e') = true <->
  e' < e \/ (e = e' /\ Z.pos m' < Z.pos m).
Proof.
  unfold lt, SFltb, SFcompare. rewrite Pos.compare_cont_spec. cbn [Pos.switch_Eq].
  rewrite Pos2Z.inj_compare.
  destruct (Z.compare_spec e e'); [destruct (Z.compare_spec (Z.pos m) (Z.pos m'))| |];
    cbn [CompOpp]; split; intros; try discriminate; try reflexivity; lia.
Qed.

Lemma pcm16_range (x : float) :
  float32_representable x = true -> -32768 <= pcm16 x <= 32767.
Proof.
  intros Hr. destruct (is_nan x) eqn:Hn.
  - destruct x; try discriminate. replace (pcm16 S754_nan) with 0 by reflexivity. lia.
  - destruct (scaled_sample_within x Hr Hn) as (_ & _ & Ht).
    unfold pcm16. rewrite ToInt16_within by exact Ht. exact Ht.
Qed.


(** The exact product, truncated, grows with the Number: for two valid
    significand-exponent pairs in increasing order. *)
Lemma scaled_quotient_mono (m m' : positive) (e e' C : Z) :
  0 < C -> e <= 0 -> e' <= 0 ->
  Z.pos m < 2 ^ 53 -> (e < e' -> 2 ^ 52 <= Z.pos m') ->
  e < e' \/ (e = e' /\ Z.pos m <= Z.pos m') ->
  Z.pos m * C / 2 ^ (- e) <= Z.pos m' * C / 2 ^ (- e').
Proof.
  intros HC He He' Hm Hm' [Hlt|[-> Hle]].
  - assert (0 < 2 ^ (- e')) by (apply pow2_pos; lia).
    assert (0 < 2 ^ (e' - e)) by (apply pow2_pos; lia).
    assert (2 ^ 1 <= 2 ^ (e' - e)) by (apply Z.pow_le_mono_r; lia).
    change (2 ^ 1) with 2 in *. change (2 ^ 53) with (2 * 2 ^ 52) in Hm.
    specialize (Hm' Hlt).
    rewrite <- (Z.div_mul_cancel_r (Z.pos m' * C) (2 ^ (- e')) (2 ^ (e' - e))) by lia.
    replace (2 ^ (- e') * 2 ^ (e' - e)) with (2 ^ (- e))
      by (rewrite <- Z.pow_add_r by lia; f_equal; lia).
    apply Z.div_le_mono; [apply pow2_pos; lia|].
    set (P := 2 ^ (e' - e)) in *. set (K := 2 ^ 52) in *.
    assert (Z.pos m <= Z.pos m' * P) by nia.
    rewrite <- Z.mul_assoc, (Z.mul_comm C P), Z.mul_assoc.
    apply Z.mul_le_mono_nonneg_r; lia.
  - apply Z.div_le_mono; [apply pow2_pos; lia|]. nia.
Qed.

Lemma pcm16_positive (m : positive) (e : Z) :
  float32_representable (S754_finite false m e) = true ->
  (lt (S754_finite false m e) (of_Z 1) = false /\ pcm16 (S754_finite false m e) = 32767) \/
  (lt (S754_finite false m e) (of_Z 1) = true /\ e <= -53 /\
   pcm16 (S754_finite false m e) = Z.pos m * 32767 / 2 ^ (- e)).
Proof.
  intros Hr. destruct (lt (S754_finite false m e) (of_Z 1)) eqn:Hlt.
  - right. split; [reflexivity|].
    destruct (float32_representable_finite false m e Hr) as [Hv _].
    split; [apply (below_one_exponent false m e Hv), lt_finite_one, Hlt|].
    apply (pcm16_inside false m e Hr eq_refl Hlt).
  - left. split; [reflexivity|]. unfold pcm16. rewrite clamp_sample_finite, Hlt. reflexivity.
Qed.

Lemma pcm16_negative (m : positive) (e : Z) :
  float32_representable (S754_finite true m e) = true ->
  (lt (of_Z (-1)) (S754_finite true m e) = false /\ pcm16 (S754_finite true m e) = -32768) \/
  (lt (of_Z (-1)) (S754_finite true m e) = true /\ e <= -53 /\
   pcm16 (S754_finite true m e) = - (Z.pos m * 32768 / 2 ^ (- e))).
Proof.
  intros Hr. destruct (lt (of_Z (-1)) (S754_finite true m e)) eqn:Hlt.
  - right. split; [reflexivity|].
    destruct (float32_representable_finite true m e Hr) as [Hv _].
    split; [apply (below_one_exponent true m e Hv), lt_minus_one_finite, Hlt|].
    apply (pcm16_inside true m e Hr Hlt eq_refl).
  - left. split; [reflexivity|]. unfold pcm16. rewrite clamp_sample_finite, Hlt. reflexivity.
Qed.

Lemma quotient_nonneg (m : positive) (e C : Z) : 0 <= C -> 0 <= Z.pos m * C / 2 ^ (- e).
Proof.
  intros HC. destruct (Z.leb_spec 0 (- e)).
  - apply Z.div_pos; [nia|apply pow2_pos; lia].
  - rewrite Z.pow_neg_r by lia. rewrite Z.div_0_r. lia.
Qed.

Lemma pcm16_of_zero (s : bool) : pcm16 (S754_zero s) = 0.
Proof. destruct s; reflexivity. Qed.

Lemma pcm16_of_infinity (s : bool) :
  pcm16 (S754_infinity s) = if s then -32768 else 32767.
Proof. destruct s; reflexivity. Qed.

(** X4. The quantizer is monotone: of two samples, neither NaN, the one
    that is not above the other is not stored as a larger value. *)
Theorem pcm16_monotone (x y : float) :
  float32_representable x = true -> float32_representable y = true ->
  is_nan x = false -> is_nan y = false ->
  lt y x = false ->
  pcm16 x <= pcm16 y.
Proof.
  intros Hx Hy Hnx Hny Hle.
  pose proof (pcm16_range x Hx) as Rx. pose proof (pcm16_range y Hy) as Ry.
  destruct x as [sx|sx| |sx mx ex]; [| | discriminate |].
  - (* x is a zero *)
    rewrite pcm16_of_zero.
    destruct y as [sy|sy| |sy my ey]; [| |discriminate|].
    + rewrite pcm16_of_zero. lia.
    + destruct sy; [discriminate|rewrite pcm16_of_infinity; lia].
    + destruct sy; [discriminate|].
      destruct (pcm16_positive my ey Hy) as [[_ ->]|(_ & _ & ->)]; [lia|].
      apply quotient_nonneg. lia.
  - (* x is an infinity *)
    destruct sx.
    + rewrite pcm16_of_infinity. lia.
    + destruct y as [sy|sy| |sy my ey]; try discriminate.
      destruct sy; [discriminate|lia].
  - (* x is finite *)
    destruct sx.
    + (* negative *)
      destruct (pcm16_negative mx ex Hx) as [[_ Hpx]|(Hmx & Hex & Hpx)]; [lia|].
      assert (pcm16 (S754_finite true mx ex) <= 0).
      { rewrite Hpx. pose proof (quotient_nonneg mx ex 32768 ltac:(lia)). lia. }
      destruct y as [sy|sy| |sy my ey]; [| |discriminate|].
      * rewrite pcm16_of_zero. lia.
      * destruct sy; [discriminate|rewrite pcm16_of_infinity; lia].
      * destruct sy.
        -- destruct (pcm16_negative my ey Hy) as [[Hmy _]|(_ & Hey & Hpy)].
           ++ (* y <= -1 < x, against x <= y *)
              exfalso.
              apply lt_minus_one_finite in Hmx.
              assert (Hyx : lt (S754_finite true my ey) (S754_finite true mx ex) = true).
              { apply lt_neg_iff.
                revert Hmy. eval_of_Z. intros Hmy.
                destruct (lt (S754_finite true 4503599627370496 (-52))
                             (S754_finite true my ey)) eqn:Hc; [discriminate|].
                assert (Hn : ~ (ey < -52 \/ (-52 = ey /\ Z.pos my < Z.pos 4503599627370496)))
                  by (intros Hq; apply lt_neg_iff in Hq; congruence).
                change (2 ^ 52) with (Z.pos 4503599627370496) in Hmx. lia. }
              congruence.
           ++ rewrite Hpx, Hpy.
              destruct (float32_representable_finite true mx ex Hx) as [Hvx _].
              destruct (float32_representable_finite true my ey Hy) as [Hvy _].
              destruct (valid_significand _ _ _ Hvx) as (Bx & Lx & Nx).
              destruct (valid_significand _ _ _ Hvy) as (By & Ly & Ny).
              assert (Hord : ey < ex \/ (ey = ex /\ Z.pos my <= Z.pos mx)).
              { assert (Hn : ~ (ex < ey \/ (ey = ex /\ Z.pos mx < Z.pos my)))
                  by (intros Hq; apply lt_neg_iff in Hq; congruence).
                lia. }
              pose proof (scaled_quotient_mono my mx ey ex 32768 ltac:(lia) ltac:(lia) ltac:(lia)
                            By ltac:(intros; apply Nx; lia) Hord).
              lia.
        -- destruct (pcm16_positive my ey Hy) as [[_ ->]|(_ & _ & ->)]; [lia|].
           pose proof (quotient_nonneg my ey 32767 ltac:(lia)). lia.
    + (* positive *)
      destruct y as [sy|sy| |sy my ey]; [| |discriminate|].
      * destruct sy; discriminate.
      * destruct sy; [discriminate|rewrite pcm16_of_infinity; lia].
      * destruct sy; [discriminate|].
        destruct (pcm16_positive my ey Hy) as [[_ Hpy]|(Hmy & Hey & Hpy)]; [lia|].
        assert (Hord : ex < ey \/ (ex = ey /\ Z.pos mx <= Z.pos my)).
        { assert (Hn : ~ (ey < ex \/ (ey = ex /\ Z.pos my < Z.pos mx)))
            by (intros Hq; apply lt_pos_iff in Hq; congruence).
          lia. }
        destruct (pcm16_positive mx ex Hx) as [[Hmx _]|(_ & Hex & Hpx)].
        -- (* x >= 1 > y, against x <= y *)
           exfalso. apply lt_finite_one in Hmy.
           revert Hmx. eval_of_Z. intros Hmx.
           assert (Hn : ~ (ex < -52 \/ (ex = -52 /\ Z.pos mx < Z.pos 4503599627370496)))
             by (intros Hq; apply lt_pos_iff in Hq; congruence).
           change (2 ^ 52) with (Z.pos 4503599627370496) in Hmy. lia.
        -- rewrite Hpx, Hpy.
           destruct (float32_representable_finite false mx ex Hx) as [Hvx _].
           destruct (float32_representable_finite false my ey Hy) as [Hvy _].
           destruct (valid_significand _ _ _ Hvx) as (Bx & Lx & Nx).
           destruct (valid_significand _ _ _ Hvy) as (By & Ly & Ny).
           apply (scaled_quotient_mono mx my ex ey 32767); lia.
Qed.

Lemma pcm16_monotone_half :
  lt (of_Z 1) one_half = false /\ pcm16 one_half <= pcm16 (of_Z 1).
Proof.
  split; [reflexivity|].
  exact (pcm16_monotone one_half (of_Z 1) eq_refl eq_refl eq_refl eq_refl eq_refl).
Defined.

(** ** [writeString], lines 145-149 *)

Lemma charCode_byte (c : ascii) : charCode c mod 2 ^ 8 mod 256 = charCode c.
Proof.
  destruct c as [[] [] [] [] [] [] [] []]; reflexivity.
Qed.

Lemma ascii_codes_bytes (s : String.string) :
  map (fun c => charCode c mod 2 ^ 8 mod 256) (list_ascii_of_string s) = ascii_codes s.
Proof.
  unfold ascii_codes. induction s as [|c s IH]; [reflexivity|].
  cbn [list_ascii_of_string map]. rewrite IH, charCode_byte. reflexivity.
Qed.

Lemma ascii_codes_length (s : String.string) : length (ascii_codes s) = String.length s.
Proof.
  unfold ascii_codes. rewrite length_map. induction s as [|c s IH]; [reflexivity|].
  cbn. rewrite IH. reflexivity.
Qed.

Lemma writeString_from_overrun (string : String.string) : forall (view : bytes) (offset i : Z),
  string <> EmptyString ->
  0 <= offset + i ->
  Z.of_nat (length view) < offset + i + Z.of_nat (String.length string) ->
  writeString_from view offset i string = Throw RangeError.
Proof.
  induction string as [|c rest IH]; intros view offset i Hne H0 H1; [congruence|].
  cbn [writeString_from String.length] in *. unfold setUint8, store, raw_bytes. cbn [le_bytes length].
  destruct (Z.leb_spec 0 (offset + i)); [|lia].
  destruct (Z.leb_spec (offset + i + Z.of_nat 1) (Z.of_nat (length view))) as [Hin|Hout];
    [|reflexivity].
  cbn [andb]. rewrite bind_Ok. apply IH; [|lia|rewrite length_inserts; lia].
  destruct rest; [cbn in H1; lia|discriminate].
Qed.

(** X5. [writeString] stores the character codes of the string at
    [offset], one byte each, and leaves every other byte and the length of
    the view as they were; a string that runs over the end of the view
    raises [RangeError]. *)
Theorem writeString_spec (view : bytes) (offset : Z) (string : String.string) :
  0 <= offset ->
  (offset + Z.of_nat (String.length string) <= Z.of_nat (length view) ->
   exists view' : bytes,
     writeString view offset string = Ok view' /\
     length view' = length view /\
     slice (Z.to_nat offset) (String.length string) view' = ascii_codes string /\
     forall k : nat,
       (k < Z.to_nat offset \/ Z.to_nat offset + String.length string <= k)%nat ->
       view' !! k = view !! k) /\
  (string <> EmptyString ->
   Z.of_nat (length view) < offset + Z.of_nat (String.length string) ->
   writeString view offset string = Throw RangeError).
Proof.
  intros H0. split.
  - intros H1.
    pose proof (writeString_app_l string view [] offset H0 H1) as Hrun.
    rewrite !app_nil_r, ascii_codes_bytes in Hrun.
    eexists. split; [exact Hrun|]. split; [apply length_inserts|]. split.
    + unfold slice. apply list_eq_same_length with (String.length string).
      * apply ascii_codes_length.
      * rewrite length_take, length_drop, length_inserts. lia.
      * intros k a b Hk Ha Hb. rewrite lookup_take_lt, lookup_drop in Ha by lia.
        rewrite list_lookup_inserts in Ha
          by (rewrite ?ascii_codes_length; lia).
        replace (Z.to_nat offset + k - Z.to_nat offset)%nat with k in Ha by lia. congruence.
    + intros k [Hk|Hk].
      * apply list_lookup_inserts_lt. exact Hk.
      * apply list_lookup_inserts_ge. rewrite ascii_codes_length. exact Hk.
  - intros Hne H1. unfold writeString. apply writeString_from_overrun; [exact Hne|lia..].
Qed.

Lemma writeString_spec_riff :
  exists view' : bytes,
    writeString (replicate 6 7) 1 "RIFF" = Ok view' /\
    slice 1 4 view' = ascii_codes "RIFF" /\
    writeString (replicate 6 7) 3 "RIFF" = Throw RangeError.
Proof.
  destruct (writeString_spec (replicate 6 7) 1 "RIFF" ltac:(lia)) as [Hin _].
  destruct (Hin ltac:(cbn; lia)) as (view' & Hrun & _ & Hslice & _).
  destruct (writeString_spec (replicate 6 7) 3 "RIFF" ltac:(lia)) as [_ Hout].
  exists view'. split; [exact Hrun|]. split; [exact Hslice|].
  apply Hout; [discriminate|cbn; lia].
Defined.

(** ** More on the renderer and the encoder *)

(** Doubling a normal Number only raises its exponent. *)
Lemma mul_two (s : bool) (m : positive) (e : Z) :
  Z.pos (digits2_pos m) = 53 -> -1074 <= e <= 970 ->
  mul (S754_finite s m e) (of_Z 2) = S754_finite s m (e + 1).
Proof.
  intros Hd He. eval_of_Z. unfold mul, SFmul, prec, emax.
  replace (xorb s false) with s by (destruct s; reflexivity).
  assert (HM : Z.pos (m * 4503599627370496) = Z.pos m * 2 ^ 52) by (rewrite Pos2Z.inj_mul; reflexivity).
  assert (HdM : Z.pos (digits2_pos (m * 4503599627370496)) = 105).
  { pose proof (digits2_pos_quot (m * 4503599627370496) 52 m ltac:(lia) HM). lia. }
  rewrite (binary_round_aux_exact s (m * 4503599627370496) (e + -51) 52 m);
    [f_equal; lia|rewrite HdM; unfold fexp, emin; lia|lia|exact HM|lia].
Qed.

(** Line 159 for two channels and an integral sample rate. *)
Lemma byte_rate_stereo (rate : Z) :
  0 <= rate < 2 ^ 32 -> truncate (byte_rate (of_Z rate) 2) = 4 * rate.
Proof.
  intros Hr. unfold byte_rate. destruct rate as [|p|p]; [reflexivity| |lia].
  unfold of_Z at 1, binary_normalize, prec, emax.
  destruct (of_pos_normal false p) as (m & e & -> & He & Hm & Hd).
  { change (2 ^ 32) with 4294967296 in Hr. change (2 ^ 53) with 9007199254740992. lia. }
  rewrite (mul_two false m e Hd), (mul_two false m (e + 1) Hd) by lia.
  unfold truncate. destruct (Z.leb_spec 0 (e + 1 + 1)).
  - rewrite Hm. assert (He' : e = -2 \/ e = -1 \/ e = 0) by lia.
    destruct He' as [-> | [-> | ->]]; cbn; lia.
  - rewrite Hm. replace (- e) with (2 + - (e + 1 + 1)) by lia.
    rewrite Z.pow_add_r by lia. change (2 ^ 2) with 4.
    rewrite Z.mul_assoc, Z.div_mul; [lia|].
    assert (0 < 2 ^ (- (e + 1 + 1))) by (apply pow2_pos; lia). lia.
Qed.

(** X7. On a host that fails nowhere on the way, every file the renderer
    returns is 16-bit stereo PCM: format tag 1, two channels, block align
    4, 16 bits, 4 bytes of data per frame; and for an integral sample
    rate the rate field holds it and the byte rate field four times it. *)
Theorem converted_wav_is_stereo_pcm16
    (host : Host) (ctx : AudioContext.t) (midi : Midi.t) (soundfont : option bytes) (rate : Z) :
  let frames := ToUint32 (frame_count midi ctx) in
  frames <> 0 -> frames < 2 ^ 30 ->
  conversion_failure host frames = None ->
  AudioContext.sampleRate ctx = of_Z rate -> 0 <= rate < 2 ^ 30 ->
  exists out : bytes,
    processMidiWithSoundfont host
      {| audioContextRef := Some ctx; midiDataRef := Some midi; soundfontDataRef := soundfont |}
    = Ok out /\
    le_decode (slice 20 2 out) = 1 /\
    le_decode (slice 22 2 out) = 2 /\
    le_decode (slice 24 4 out) = rate /\
    le_decode (slice 28 4 out) = 4 * rate /\
    le_decode (slice 32 2 out) = 4 /\
    le_decode (slice 34 2 out) = 16 /\
    le_decode (slice 40 4 out) = 4 * frames /\
    Z.of_nat (length out) = 44 + 4 * frames.
Proof.
  intros frames Hnz Hfr Hhost Hsr Hrate.
  pose proof (ToUint32_range (frame_count midi ctx)) as Hr. fold frames in Hr.
  rewrite processMidiWithSoundfont_set. fold frames. rewrite Hhost, Hsr.
  destruct (Z.eqb_spec frames 0) as [?|_]; [contradiction|].
  eexists. split; [reflexivity|].
  destruct (stereo_header_fields frames (of_Z rate) (replicate (Z.to_nat (frames * 2 * 2)) 0) Hr)
    as (F6 & F7 & F8 & F9 & F10 & F11 & _ & F13).
  rewrite F6, F7, F8, F9, F10, F11, F13, length_app, wav_header_length, length_replicate.
  unfold ToUint32. change (2 ^ 30) with 1073741824 in *.
  rewrite byte_rate_stereo by (change (2 ^ 32) with 4294967296; lia).
  rewrite truncate_of_Z by (change (2 ^ 53) with 9007199254740992; lia).
  change (2 ^ 32) with 4294967296.
  rewrite !Z.mod_small by lia. repeat split; lia.
Qed.

Lemma converted_wav_is_stereo_pcm16_a4 :
  exists out : bytes,
    processMidiWithSoundfont reliable (app_of a4_midi None) = Ok out /\
    le_decode (slice 28 4 out) = 176400 /\ Z.of_nat (length out) = 176444.
Proof.
  destruct (converted_wav_is_stereo_pcm16 reliable context_44100 a4_midi None 44100
              ltac:(rewrite a4_frames; discriminate)
              ltac:(rewrite a4_frames; reflexivity)
              ltac:(rewrite a4_frames; reflexivity)
              eq_refl
              ltac:(split; [discriminate|reflexivity]))
    as (out & Hrun & _ & _ & _ & Hrate & _ & _ & _ & Hlen).
  exists out. split; [exact Hrun|]. split; [exact Hrate|].
  rewrite Hlen, a4_frames. reflexivity.
Defined.





(** X10. The queue of the node after scheduling: the soundfont message
    first, when a soundfont is loaded, then for each note in track order
    its [noteOn] immediately followed by its [noteOff], whose time is the
    sum of the note's time and duration: two messages per note. *)
Theorem posted_queue (soundfont : option bytes) (midi : Midi.t) :
  port (scheduled_node soundfont midi)
  = match soundfont with Some data => [loadSoundfont data] | None => [] end
    ++ flat_map (fun note => [noteOn (Note.midi note) (Note.velocity note) (Note.time note);
                              noteOff (Note.midi note) (add (Note.time note) (Note.duration note))])
         (events midi) /\
  length (port (scheduled_node soundfont midi))
  = (match soundfont with Some _ => 1 | None => 0 end + 2 * length (events midi))%nat.
Proof.
  rewrite scheduled_node_port. split; [reflexivity|].
  rewrite length_app. f_equal; [destruct soundfont; reflexivity|].
  induction (events midi) as [|ev evs IH]; [reflexivity|].
  cbn [flat_map length note_messages app]. rewrite IH. lia.
Qed.

(** X6. Whenever the array buffer can be created, the two size fields
    agree with the size of the file: bytes 4-7 hold the file length less
    8 and bytes 40-43 the file length less 44, as long as the file is
    shorter than 2^32 + 8 bytes. *)
Theorem riff_sizes_match_file (host : Host) (buffer : AudioBuffer.t) :
  AudioBuffer.wf buffer ->
  let len := AudioBuffer.length buffer * AudioBuffer.numberOfChannels buffer * 2 in
  36 + len < 2 ^ 32 ->
  allocates host (44 + len) = true ->
  exists out : bytes,
    audioBufferToWav host buffer = Ok out /\
    le_decode (slice 4 4 out) = Z.of_nat (length out) - 8 /\
    le_decode (slice 40 4 out) = Z.of_nat (length out) - 44.
Proof.
  intros Hwf len Hlen Halloc.
  destruct (audioBufferToWav_layout host buffer Hwf Halloc) as (D & Hrun & HlenD & _).
  fold len in Hrun, HlenD.
  destruct (wf_sizes host buffer Hwf Halloc) as (Bn & Bl0 & Bl). fold len in Bl0, Bl.
  destruct (wav_header_fields (AudioBuffer.numberOfChannels buffer) len
              (AudioBuffer.sampleRate buffer) D Bn Bl0 Bl)
    as (_ & F2 & _ & _ & _ & _ & _ & _ & _ & _ & _ & _ & F13).
  eexists. split; [exact Hrun|].
  rewrite F2, F13, length_app, wav_header_length.
  rewrite !Z.mod_small by lia. lia.
Qed.

Lemma riff_sizes_match_file_small :
  AudioBuffer.wf small_buffer /\
  exists out : bytes,
    audioBufferToWav reliable small_buffer = Ok out /\
    le_decode (slice 4 4 out) = Z.of_nat (length out) - 8.
Proof.
  split; [exact small_buffer_wf|].
  destruct (riff_sizes_match_file reliable small_buffer small_buffer_wf ltac:(reflexivity) eq_refl)
    as (out & Hrun & H4 & _).
  exists out. split; [exact Hrun|exact H4].
Defined.

(** ** Strings: suffix test and first-occurrence replacement *)

Lemma string_length_append (a b : String.string) :
  String.length (String.append a b) = (String.length a + String.length b)%nat.
Proof. induction a as [|c a IH]; cbn; [reflexivity|]. rewrite IH. reflexivity. Qed.

Lemma substring_all (b : String.string) : substring 0 (String.length b) b = b.
Proof. induction b as [|c b IH]; cbn; [reflexivity|]. rewrite IH. reflexivity. Qed.

Lemma substring_append_r (a b : String.string) :
  substring (String.length a) (String.length b) (String.append a b) = b.
Proof. induction a as [|c a IH]; cbn; [apply substring_all|exact IH]. Qed.

Lemma substring_split (s : String.string) : forall n : nat,
  (n <= String.length s)%nat ->
  s = String.append (substring 0 n s) (substring n (String.length s - n) s).
Proof.
  induction s as [|c s IH]; intros n Hn.
  - destruct n; reflexivity.
  - destruct n as [|n].
    + cbn. rewrite substring_all. reflexivity.
    + cbn in *. f_equal. apply IH. lia.
Qed.

Lemma endsWith_iff (s searchString : String.string) :
  endsWith s searchString = true <-> exists stem, s = String.append stem searchString.
Proof.
  unfold endsWith. split.
  - intros H. apply andb_prop in H as [Hk Heq].
    apply Nat.leb_le in Hk. apply String.eqb_eq in Heq.
    exists (substring 0 (String.length s - String.length searchString) s).
    pose proof (substring_split s (String.length s - String.length searchString) ltac:(lia))
      as Hsplit.
    replace (String.length s - (String.length s - String.length searchString))%nat
      with (String.length searchString) in Hsplit by lia.
    rewrite Heq in Hsplit. exact Hsplit.
  - intros [stem ->]. rewrite string_length_append.
    replace (String.length stem + String.length searchString - String.length searchString)%nat
      with (String.length stem) by lia.
    rewrite substring_append_r, String.eqb_refl.
    destruct (Nat.leb_spec (String.length searchString)
                (String.length stem + String.length searchString)); [reflexivity|lia].
Qed.

Lemma prefix_append (a b : String.string) : String.prefix a (String.append a b) = true.
Proof.
  induction a as [|c a IH]; cbn.
  - destruct b; reflexivity.
  - destruct (ascii_dec c c); [exact IH|congruence].
Qed.

Lemma String_replace_here (searchValue replaceValue rest : String.string) :
  String_replace (String.append searchValue rest) searchValue replaceValue
  = String.append replaceValue rest.
Proof.
  destruct (String.append searchValue rest) eqn:Hs; cbn [String_replace]; rewrite <- Hs;
    rewrite prefix_append, string_length_append;
    replace (String.length searchValue + String.length rest - String.length searchValue)%nat
      with (String.length rest) by lia;
    rewrite substring_append_r; reflexivity.
Qed.

(** X11. The download name: when the first character of the pattern does
    not occur before the pattern's leftmost occurrence, [replace] rewrites
    that occurrence and nothing else — so "song.mid" becomes "song.wav",
    and a name such as "a.mid.mid" becomes "a.wav.mid". *)
Theorem String_replace_first (stem rest : String.string) (c0 : ascii) (pattern' replaceValue : String.string) :
  Forall (fun c => c <> c0) (list_ascii_of_string stem) ->
  String_replace (String.append stem (String.append (String c0 pattern') rest))
                 (String c0 pattern') replaceValue
  = String.append stem (String.append replaceValue rest).
Proof.
  induction stem as [|c stem IH]; intros Hstem.
  - change (String_replace (String.append (String c0 pattern') rest) (String c0 pattern') replaceValue
            = String.append replaceValue rest).
    apply String_replace_here.
  - cbn [list_ascii_of_string] in Hstem. inversion Hstem as [|? ? Hc Hrest]; subst.
    cbn [String.append String_replace String.prefix].
    destruct (ascii_dec c0 c) as [Heq|_]; [congruence|].
    f_equal. apply IH, Hrest.
Qed.

Lemma String_replace_first_song :
  String_replace "song.mid" ".mid" ".wav" = "song.wav"%string /\
  String_replace "a.mid.mid" ".mid" ".wav" = "a.wav.mid"%string.
Proof.
  split.
  - apply (String_replace_first "song" "" "."%char "mid" ".wav").
    repeat constructor; discriminate.
  - apply (String_replace_first "a" ".mid" "."%char "mid" ".wav").
    repeat constructor; discriminate.
Defined.

(** ** The component: what uploads establish, what a conversion yields *)


Lemma consistent_mounted (P : Platform) (ctx : AudioContext.t) : consistent P ctx (mounted ctx).
Proof. repeat split. Qed.

Lemma consistent_same (P : Platform) (ctx : AudioContext.t) (st st' : Component) :
  refs st' = refs st -> midiFile st' = midiFile st -> soundfontFile st' = soundfontFile st ->
  isConverting st' = false ->
  consistent P ctx st -> consistent P ctx st'.
Proof.
  unfold consistent. intros -> -> -> -> (Hctx & _ & Hmidi & Hsf). repeat split; assumption.
Qed.

Lemma consistent_step (P : Platform) (ctx : AudioContext.t) (st : Component) (ev : Event) :
  consistent P ctx st -> consistent P ctx (step P st ev).
Proof.
  intros Hst. pose proof Hst as (Hctx & Hconv & Hmidi & Hsf).
  destruct ev as [[file|]|[file|]|]; cbn [step].
  - unfold handleMidiUpload.
    destruct (endsWith (File.name file) ".mid") eqn:Hext;
      [|apply (consistent_same P ctx st); auto].
    destruct (readMidi P file) as [midi|err] eqn:Hread;
      [|apply (consistent_same P ctx st); auto].
    split; [exact Hctx|]. split; [exact Hconv|]. split; [|exact Hsf].
    cbn. split; [exact Hext|]. exists midi. split; [exact Hread|reflexivity].
  - apply (consistent_same P ctx st); auto.
  - unfold handleSoundfontUpload.
    destruct (endsWith (File.name file) ".sf2") eqn:Hext;
      [|apply (consistent_same P ctx st); auto].
    destruct (readSoundfont P file) as [data|err] eqn:Hread;
      [|apply (consistent_same P ctx st); auto].
    split; [exact Hctx|]. split; [exact Hconv|]. split; [exact Hmidi|].
    cbn. split; [exact Hext|]. exists data. split; [exact Hread|reflexivity].
  - apply (consistent_same P ctx st); auto.
  - unfold convertToWav. destruct (midiFile st) as [file|] eqn:Hfile.
    + destruct (processMidiWithSoundfont _); apply (consistent_same P ctx st); auto.
    + apply (consistent_same P ctx st); auto.
Qed.

Lemma consistent_fold (P : Platform) (ctx : AudioContext.t) (evs : list Event) :
  forall st : Component,
    consistent P ctx st -> consistent P ctx (fold_left (step P) evs st).
Proof.
  induction evs as [|ev evs IH]; intros st Hst; [exact Hst|].
  cbn [fold_left]. apply IH, consistent_step, Hst.
Qed.

(** X14. Whatever the user does to the mounted component, in any order and
    with any files, the refs and the displayed files stay in step: a MIDI
    file is shown exactly when the timeline parsed from it is held, a
    soundfont file exactly when its bytes are held, and the component is
    not left converting. *)
Theorem consistent_run (P : Platform) (ctx : AudioContext.t) (evs : list Event) :
  consistent P ctx (run P evs (mounted ctx)).
Proof.
  unfold run. generalize (consistent_mounted P ctx). generalize (mounted ctx).
  induction evs as [|ev evs IH]; intros st Hst; [exact Hst|].
  cbn [fold_left]. apply IH, consistent_step, Hst.
Qed.


(** X12. A MIDI upload clears the error line exactly when it is accepted:
    a file was chosen, its name ends in ".mid", and the parser accepted
    its content; then the file is shown and its timeline is held. *)
Theorem midi_upload_accepted_iff (P : Platform) (file : option File.t) (st : Component) :
  let st' := handleMidiUpload P file st in
  (error st' = ""%string <->
   exists (f : File.t) (stem : String.string) (midi : Midi.t),
     file = Some f /\ File.name f = String.append stem ".mid" /\ readMidi P f = Ok midi) /\
  (error st' = ""%string -> midiFile st' = file /\
     exists midi, midiDataRef (refs st') = Some midi) /\
  (error st' <> ""%string -> refs st' = refs st /\ midiFile st' = midiFile st).
Proof.
  intros st'. unfold st', handleMidiUpload.
  destruct file as [f|].
  - destruct (endsWith (File.name f) ".mid") eqn:Hext.
    + apply endsWith_iff in Hext as [stem Hstem].
      destruct (readMidi P f) as [midi|err] eqn:Hread.
      * split; [split; [intros _; exists f, stem, midi; auto|reflexivity]|].
        split; [intros _; split; [reflexivity|exists midi; reflexivity]|].
        intros Hne. exfalso. apply Hne. reflexivity.
      * split; [split; [discriminate|intros (f' & stem' & midi & [= <-] & _ & Hok); congruence]|].
        split; [discriminate|]. intros _. split; reflexivity.
    + split; [split; [discriminate|]|].
      * intros (f' & stem & midi & [= <-] & Hname & _).
        assert (endsWith (File.name f) ".mid" = true) by (apply endsWith_iff; eauto). congruence.
      * split; [discriminate|]. intros _. split; reflexivity.
  - split; [split; [discriminate|intros (f & _ & _ & Hf & _); discriminate]|].
    split; [discriminate|]. intros _. split; reflexivity.
Qed.

(** ** What the soundfont and the progress bar amount to *)




Lemma progress_step (P : Platform) (st : Component) (ev : Event) :
  progress st = 0 \/ progress st = 100 ->
  progress (step P st ev) = 0 \/ progress (step P st ev) = 100.
Proof.
  intros H. destruct ev as [file|file|]; cbn [step].
  - unfold handleMidiUpload. destruct file as [file|]; [|exact H].
    destruct (endsWith _ _); [|exact H]. destruct (readMidi P file); exact H.
  - unfold handleSoundfontUpload. destruct file as [file|]; [|exact H].
    destruct (endsWith _ _); [|exact H]. destruct (readSoundfont P file); exact H.
  - unfold convertToWav. destruct (midiFile st); [|exact H].
    destruct (processMidiWithSoundfont _); cbn; auto.
Qed.

(** X16. The progress bar is never shown: progress is only ever set to 0
    or to 100, and the markup shows the bar strictly between the two.
    The Convert button is disabled exactly when the Play button is, that
    is, when no MIDI file is shown. *)
Theorem progress_bar_never_shown (P : Platform) (ctx : AudioContext.t) (evs : list Event) :
  let st := run P evs (mounted ctx) in
  progressBarShown st = false /\
  convertDisabled st = playDisabled st.
Proof.
  intros st. split.
  - assert (H : progress st = 0 \/ progress st = 100).
    { unfold st, run. assert (H0 : progress (mounted ctx) = 0 \/ progress (mounted ctx) = 100)
        by (left; reflexivity).
      revert H0. generalize (mounted ctx).
      induction evs as [|ev evs IH]; intros s Hs; [exact Hs|].
      cbn [fold_left]. apply IH, progress_step, Hs. }
    unfold progressBarShown. destruct H as [-> | ->]; reflexivity.
  - assert (Hst : consistent P ctx st) by apply consistent_fold, consistent_mounted.
    destruct Hst as (_ & Hconv & _).
    unfold convertDisabled, playDisabled. rewrite Hconv. apply orb_false_r.
Qed.
